(** * Full strong branching, vanilla version: a shallow embedding

    Source: [src/pyscipopt/branch_fullstrong_vanilla.c] (and its header).

    The branching rule is a plugin of the SCIP solver.  Everything the file
    calls but does not define (the LP oracle, the stop test, the numerical
    comparisons, the branching score, ...) belongs to the host and is taken
    here as a field of the record [Host].  The rule's own functions are
    translated one by one, with the names of the source:

    - [SCIPgetVarStrongbranchFracVanilla]    the strong-branch probe,
    - [SCIPselectVarStrongBranchingVanilla]  the selection loop,
    - [branchExeclpFullstrong]               the execute-on-LP callback,
    - [SCIPincludeBranchruleFullstrongVanilla], [branchFreeFullstrong]
                                             creation and destruction.

    Numbers: [SCIP_Real] is C's [double], modelled by Rocq's primitive
    binary64 floats; [>] is [PrimFloat.ltb] with swapped arguments, [-], [*]
    are the IEEE operations.  Candidate indices and array lengths are [int]s
    that stay in [0, nlpcands]; they are modelled by [nat].  An array is a
    list that carries its length, a possibly-NULL array an [option (list _)].

    Effects: every call that reaches the host is appended to a log, and the
    host's answer to a call may depend on the whole log before it, so the host
    is an arbitrary deterministic state machine.  A [SCIP_CALL] that fails
    makes the enclosing function return the error code at once; this includes
    the memory requests of the execute callback (the three scratch copies
    of the candidate arrays and the two score buffers), which the host may
    refuse. *)

From Stdlib Require Import ZArith Bool List Lia Floats.
From stdpp Require Import base list.

Open Scope float_scope.

(** ** Host declarations used by the rule *)

(** [SCIP_RETCODE] of [scip/type_retcode.h]. *)
Inductive SCIP_RETCODE : Set :=
| SCIP_OKAY | SCIP_ERROR | SCIP_NOMEMORY | SCIP_READERROR | SCIP_WRITEERROR
| SCIP_NOFILE | SCIP_FILECREATEERROR | SCIP_LPERROR | SCIP_NOPROBLEM
| SCIP_INVALIDCALL | SCIP_INVALIDDATA | SCIP_INVALIDRESULT
| SCIP_PLUGINNOTFOUND | SCIP_PARAMETERUNKNOWN | SCIP_PARAMETERWRONGTYPE
| SCIP_PARAMETERWRONGVAL | SCIP_KEYALREADYEXISTING | SCIP_MAXDEPTHLEVEL
| SCIP_BRANCHERROR | SCIP_NOTIMPLEMENTED.

#[global] Instance SCIP_RETCODE_eq_dec : EqDecision SCIP_RETCODE.
Proof. solve_decision. Defined.

(** [SCIP_RESULT] of [scip/type_result.h]. *)
Inductive SCIP_RESULT : Set :=
| SCIP_DIDNOTRUN | SCIP_DELAYED | SCIP_DIDNOTFIND | SCIP_FEASIBLE
| SCIP_INFEASIBLE | SCIP_UNBOUNDED | SCIP_CUTOFF | SCIP_SEPARATED
| SCIP_NEWROUND | SCIP_REDUCEDDOM | SCIP_CONSADDED | SCIP_CONSCHANGED
| SCIP_BRANCHED | SCIP_SOLVELP | SCIP_FOUNDSOL | SCIP_SUSPENDED
| SCIP_SUCCESS | SCIP_DELAYNODE.

(** [SCIP_VARSTATUS] of [scip/type_var.h]. *)
Inductive SCIP_VARSTATUS : Set :=
| SCIP_VARSTATUS_ORIGINAL | SCIP_VARSTATUS_LOOSE | SCIP_VARSTATUS_COLUMN
| SCIP_VARSTATUS_FIXED | SCIP_VARSTATUS_AGGREGATED | SCIP_VARSTATUS_MULTAGGR
| SCIP_VARSTATUS_NEGATED.

#[global] Instance SCIP_VARSTATUS_eq_dec : EqDecision SCIP_VARSTATUS.
Proof. solve_decision. Defined.

(** [SCIP_Real] is [double]. *)
Abbreviation SCIP_Real := float (only parsing).

(** A [SCIP_VAR*] is an opaque handle. *)
Abbreviation SCIP_VAR := nat (only parsing).

Definition INT_MAX : Z := 2147483647.

(** [sizeof(SCIP_Real)] and [sizeof(SCIP_Bool)] ([double], [unsigned int]):
    the element sizes [SCIPallocBlockMemoryArray] hands to the memory
    manager. *)
Definition sizeof_SCIP_Real : Z := 8.

Definition sizeof_SCIP_Bool : Z := 4.

(** [MAX] of [scip/def.h]: [((x) >= (y) ? (x) : (y))]. *)
Definition MAX (x y : SCIP_Real) : SCIP_Real := if y <=? x then x else y.

(** The calls that reach the solver, in the order they are made (requests
    to the memory manager are not recorded).  The entry of the rule's own
    exported probe is recorded too, so that "the probe was called" can be
    read off the log. *)
Inductive Call : Set :=
| CallGetLPBranchCands
| CallStartStrongbranch (enablepropagation : bool)
| CallGetVarStrongbranchFracVanilla (var : SCIP_VAR) (itlim : Z)
| CallColGetStrongbranch (var : SCIP_VAR) (integral : bool) (itlim : Z)
| CallEndStrongbranch
| CallBranchVarVal (var : SCIP_VAR) (val : SCIP_Real).

Abbreviation Log := (list Call) (only parsing).

(** What [SCIPcolGetStrongbranch] stores through its five output pointers. *)
Record StrongbranchResult : Set := {
  res_down : SCIP_Real;
  res_up : SCIP_Real;
  res_downvalid : bool;
  res_upvalid : bool;
  res_lperror : bool
}.

(** What [SCIPgetLPBranchCands] hands out; [nlpcands] is the length of the
    three parallel arrays. *)
Record LPBranchCands : Set := {
  tmplpcands : list SCIP_VAR;
  tmplpcandssol : list SCIP_Real;
  tmplpcandsfrac : list SCIP_Real;
  tmpnpriolpcands : nat
}.

(** The three arrays of [SCIPgetLPBranchCands] the callback asks a scratch
    copy of (lines 402-404). *)
Inductive CandArray : Set := ArrLpcands | ArrLpcandssol | ArrLpcandsfrac.

Record Host : Set := {
  SCIPinfinity : SCIP_Real;
  SCIPgetLPObjval : Log -> SCIP_Real;
  SCIPgetCutoffbound : Log -> SCIP_Real;
  SCIPisGE : SCIP_Real -> SCIP_Real -> bool;
  SCIPvarGetBranchFactor : SCIP_VAR -> SCIP_Real;
  SCIPgetBranchScore : SCIP_VAR -> SCIP_Real -> SCIP_Real -> SCIP_Real;
  SCIPisStopped : Log -> bool;
  SCIPsolveIsStopped : Log -> bool;
  SCIPcheckStage : Log -> SCIP_RETCODE;
  SCIPvarGetStatus : SCIP_VAR -> SCIP_VARSTATUS;
  SCIPcolIsInLP : SCIP_VAR -> bool;
  SCIPstartStrongbranch : Log -> bool -> SCIP_RETCODE;
  SCIPcolGetStrongbranch :
    Log -> SCIP_VAR -> bool -> Z -> SCIP_RETCODE * StrongbranchResult;
  SCIPendStrongbranch : Log -> SCIP_RETCODE;
  SCIPgetLPBranchCands : Log -> SCIP_RETCODE * LPBranchCands;
  SCIPbranchVarVal : Log -> SCIP_VAR -> SCIP_Real -> SCIP_RETCODE;
  (** the buffer memory, asked for a copy of [num] elements of one of the
      candidate arrays *)
  SCIPduplicateBufferArray : Log -> CandArray -> nat -> SCIP_RETCODE;
  (** the block memory, asked for [num] elements of size [size]:
      [SCIP_OKAY], or an error code with a NULL pointer *)
  SCIPallocBlockMemoryArray : Log -> Z -> nat -> SCIP_RETCODE;
  (** entry [i] of a freshly allocated block of reals, before it is
      cleared *)
  uncleared_real : Log -> nat -> SCIP_Real
}.

(** ** The strong-branch probe *)

(** The five cells behind the output pointers of the probe.  [downvalid] and
    [upvalid] may be NULL ([None]); the other three pointers are not. *)
Record SBCells : Set := {
  sb_down : SCIP_Real;
  sb_up : SCIP_Real;
  sb_downvalid : option bool;
  sb_upvalid : option bool;
  sb_lperror : bool
}.

(** [if( p != NULL ) *p = b;] *)
Definition store_if_nonnull (p : option bool) (b : bool) : option bool :=
  match p with
  | Some _ => Some b
  | None => None
  end.

Definition store_result (r : StrongbranchResult) (cells : SBCells) : SBCells :=
  {| sb_down := res_down r;
     sb_up := res_up r;
     sb_downvalid := store_if_nonnull (sb_downvalid cells) (res_downvalid r);
     sb_upvalid := store_if_nonnull (sb_upvalid cells) (res_upvalid r);
     sb_lperror := res_lperror r |}.

Definition SCIPgetVarStrongbranchFracVanilla
    (scip : Host) (log : Log) (var : SCIP_VAR) (itlim : Z) (cells : SBCells)
  : SCIP_RETCODE * SBCells * Log :=
  let log := log ++ [CallGetVarStrongbranchFracVanilla var itlim] in
  let rc := SCIPcheckStage scip log in
  if decide (rc = SCIP_OKAY) then
    (* lines 145-148 *)
    let cells :=
      {| sb_down := sb_down cells;
         sb_up := sb_up cells;
         sb_downvalid := store_if_nonnull (sb_downvalid cells) false;
         sb_upvalid := store_if_nonnull (sb_upvalid cells) false;
         sb_lperror := sb_lperror cells |} in
    if decide (SCIPvarGetStatus scip var = SCIP_VARSTATUS_COLUMN) then
      if SCIPcolIsInLP scip var then
        if SCIPsolveIsStopped scip log then
          (* mark this as if the LP failed *)
          (SCIP_OKAY,
           {| sb_down := sb_down cells;
              sb_up := sb_up cells;
              sb_downvalid := sb_downvalid cells;
              sb_upvalid := sb_upvalid cells;
              sb_lperror := true |},
           log)
        else
          let '(rc, r) := SCIPcolGetStrongbranch scip log var false itlim in
          (rc, store_result r cells,
           log ++ [CallColGetStrongbranch var false itlim])
      else (SCIP_INVALIDDATA, cells, log)
    else (SCIP_INVALIDDATA, cells, log)
  else (rc, cells, log).

(** ** The selection loop *)

(** The output cells of [SCIPselectVarStrongBranchingVanilla] ([*bestcand],
    ..., [*provedbound], the two score buffers), the locals that live across
    iterations, and the call log.  [result] is never written by the
    function and is left to the caller.  The locals [lperror], [downvalid]
    and [upvalid] are uninitialised in C; the probe stores all three on every
    path that returns [SCIP_OKAY] before they are read, and the oracle never
    reads them, so their initial content (here [false]) is unobservable. *)
Record SelectState : Set := {
  bestcand : nat;
  bestdown : SCIP_Real;
  bestup : SCIP_Real;
  bestscore : SCIP_Real;
  bestdownvalid : bool;
  bestupvalid : bool;
  provedbound : SCIP_Real;
  sel_latestscores : list SCIP_Real;
  sel_validscores : list bool;
  besthasinf : bool;
  lperror : bool;
  downvalid : bool;
  upvalid : bool;
  sel_log : Log
}.

(** How a loop body (or the loop) is left: by falling through, by [break],
    or by a failing [SCIP_CALL]. *)
Inductive Flow : Set :=
| Continue
| Break
| Return (rc : SCIP_RETCODE).

(** The cells handed to the probe at lines 281-285. *)
Definition sb_args (scip : Host) (st : SelectState) : SBCells :=
  {| sb_down := - SCIPinfinity scip;
     sb_up := - SCIPinfinity scip;
     sb_downvalid := Some (downvalid st);
     sb_upvalid := Some (upvalid st);
     sb_lperror := lperror st |}.

Definition cell_value (p : option bool) : bool :=
  match p with
  | Some b => b
  | None => false
  end.

Definition after_probe (st : SelectState) (cells : SBCells) (log' : Log)
  : SelectState :=
  {| bestcand := bestcand st;
     bestdown := bestdown st;
     bestup := bestup st;
     bestscore := bestscore st;
     bestdownvalid := bestdownvalid st;
     bestupvalid := bestupvalid st;
     provedbound := provedbound st;
     sel_latestscores := sel_latestscores st;
     sel_validscores := sel_validscores st;
     besthasinf := besthasinf st;
     lperror := sb_lperror cells;
     downvalid := cell_value (sb_downvalid cells);
     upvalid := cell_value (sb_upvalid cells);
     sel_log := log' |}.

(** The values computed at lines 296-324 from one successful probe. *)
Record Verdict : Set := {
  v_down : SCIP_Real;
  v_up : SCIP_Real;
  v_downvalid : bool;
  v_upvalid : bool;
  v_downgain : SCIP_Real;
  v_upgain : SCIP_Real;
  v_downinf : bool;
  v_upinf : bool;
  v_score : SCIP_Real
}.

Definition evaluate (scip : Host) (log : Log) (lpobjval : SCIP_Real)
    (var : SCIP_VAR) (cells : SBCells) : Verdict :=
  let down := MAX (sb_down cells) lpobjval in
  let up := MAX (sb_up cells) lpobjval in
  let downgain := down - lpobjval in
  let upgain := up - lpobjval in
  let downvalid := cell_value (sb_downvalid cells) in
  let upvalid := cell_value (sb_upvalid cells) in
  let downinf := downvalid && SCIPisGE scip down (SCIPgetCutoffbound scip log) in
  let upinf := upvalid && SCIPisGE scip up (SCIPgetCutoffbound scip log) in
  let score :=
    if downinf && upinf then SCIPinfinity scip
    else if downinf then upgain * SCIPvarGetBranchFactor scip var
    else if upinf then downgain * SCIPvarGetBranchFactor scip var
    else SCIPgetBranchScore scip var downgain upgain in
  {| v_down := down; v_up := up;
     v_downvalid := downvalid; v_upvalid := upvalid;
     v_downgain := downgain; v_upgain := upgain;
     v_downinf := downinf; v_upinf := upinf;
     v_score := score |}.

(** Lines 320-327: [validscores[c] = TRUE] in the last branch of the case
    split, then [latestscores[c] = score]. *)
Definition record_score (c : nat) (v : Verdict) (st : SelectState)
  : SelectState :=
  {| bestcand := bestcand st;
     bestdown := bestdown st;
     bestup := bestup st;
     bestscore := bestscore st;
     bestdownvalid := bestdownvalid st;
     bestupvalid := bestupvalid st;
     provedbound := provedbound st;
     sel_latestscores := <[c := v_score v]> (sel_latestscores st);
     sel_validscores :=
       if v_downinf v || v_upinf v then sel_validscores st
       else <[c := true]> (sel_validscores st);
     besthasinf := besthasinf st;
     lperror := lperror st;
     downvalid := downvalid st;
     upvalid := upvalid st;
     sel_log := sel_log st |}.

(** The condition of the [if] at line 329. *)
Definition replaces_best (v : Verdict) (st : SelectState) : bool :=
  ((bestscore st <? v_score v)
     && (v_downinf v || v_upinf v || negb (besthasinf st)))
  || (negb (besthasinf st) && (v_downinf v || v_upinf v)).

(** Lines 331-341. *)
Definition new_best (c : nat) (v : Verdict) (st : SelectState) : SelectState :=
  {| bestcand := c;
     bestdown := v_down v;
     bestup := v_up v;
     bestscore := v_score v;
     bestdownvalid := v_downvalid v;
     bestupvalid := v_upvalid v;
     provedbound := provedbound st;
     sel_latestscores := sel_latestscores st;
     sel_validscores := sel_validscores st;
     besthasinf := if v_downinf v || v_upinf v then true else besthasinf st;
     lperror := lperror st;
     downvalid := downvalid st;
     upvalid := upvalid st;
     sel_log := sel_log st |}.

(** One pass through the body of the loop of lines 273-352, for candidate
    [c] with [lpcands[c] = var]. *)
Definition iteration (scip : Host) (forcestrongbranch : bool)
    (lpobjval : SCIP_Real) (c : nat) (var : SCIP_VAR) (st : SelectState)
  : Flow * SelectState :=
  let '(rc, cells, log') :=
    SCIPgetVarStrongbranchFracVanilla scip (sel_log st) var INT_MAX
      (sb_args scip st) in
  let st := after_probe st cells log' in
  if decide (rc = SCIP_OKAY) then
    if lperror st then (Break, st)
    else
      let v := evaluate scip log' lpobjval var cells in
      let st := record_score c v st in
      if replaces_best v st then
        let st := new_best c v st in
        if negb forcestrongbranch && v_downinf v && v_upinf v
        then (Break, st)
        else (Continue, st)
      else (Continue, st)
  else (Return rc, st).

(** [for( c = ...; c < nlpcands; ++c )] over the candidates [lpcands[c]],
    [lpcands[c+1]], ... that remain. *)
Fixpoint candidate_loop (scip : Host) (forcestrongbranch : bool)
    (lpobjval : SCIP_Real) (cands : list SCIP_VAR) (c : nat)
    (st : SelectState) : Flow * SelectState :=
  match cands with
  | [] => (Continue, st)
  | var :: cands' =>
      match iteration scip forcestrongbranch lpobjval c var st with
      | (Continue, st') =>
          candidate_loop scip forcestrongbranch lpobjval cands' (S c) st'
      | (Break, st') => (Break, st')
      | (Return rc, st') => (Return rc, st')
      end
  end.

(** Lines 262-266: the remaining [n] passes of the loop that empties the
    score buffers, starting at index [c]. *)
Fixpoint empty_score_buffer (scip : Host) (n c : nat)
    (ls : list SCIP_Real) (vs : list bool) : list SCIP_Real * list bool :=
  match n with
  | O => (ls, vs)
  | S n' =>
      empty_score_buffer scip n' (S c)
        (<[c := - SCIPinfinity scip]> ls) (<[c := false]> vs)
  end.

(** The state at line 247, after the outputs have been initialised. *)
Definition select_init (scip : Host) (log : Log)
    (latestscores : list SCIP_Real) (validscores : list bool) : SelectState :=
  let lpobjval := SCIPgetLPObjval scip log in
  {| bestcand := 0;
     bestdown := lpobjval;
     bestup := lpobjval;
     bestscore := - SCIPinfinity scip;
     bestdownvalid := true;
     bestupvalid := true;
     provedbound := lpobjval;
     sel_latestscores := latestscores;
     sel_validscores := validscores;
     besthasinf := false;
     lperror := false;
     downvalid := false;
     upvalid := false;
     sel_log := log |}.

(** The state at line 273, on entry to the candidate loop. *)
Definition loop_entry (scip : Host) (log : Log) (nlpcands : nat)
    (latestscores : list SCIP_Real) (validscores : list bool) : SelectState :=
  let st := select_init scip log latestscores validscores in
  let '(ls, vs) :=
    empty_score_buffer scip nlpcands 0 latestscores validscores in
  {| bestcand := bestcand st;
     bestdown := bestdown st;
     bestup := bestup st;
     bestscore := bestscore st;
     bestdownvalid := bestdownvalid st;
     bestupvalid := bestupvalid st;
     provedbound := provedbound st;
     sel_latestscores := ls;
     sel_validscores := vs;
     besthasinf := false;
     lperror := lperror st;
     downvalid := downvalid st;
     upvalid := upvalid st;
     sel_log := log ++ [CallStartStrongbranch false] |}.

Definition set_log (st : SelectState) (log' : Log) : SelectState :=
  {| bestcand := bestcand st;
     bestdown := bestdown st;
     bestup := bestup st;
     bestscore := bestscore st;
     bestdownvalid := bestdownvalid st;
     bestupvalid := bestupvalid st;
     provedbound := provedbound st;
     sel_latestscores := sel_latestscores st;
     sel_validscores := sel_validscores st;
     besthasinf := besthasinf st;
     lperror := lperror st;
     downvalid := downvalid st;
     upvalid := upvalid st;
     sel_log := log' |}.

(** [nlpcands] is the length of [lpcands]; [lpcandssol], [lpcandsfrac] and
    [npriolpcands] are only used in messages. *)
Definition SCIPselectVarStrongBranchingVanilla
    (scip : Host) (log : Log)
    (lpcands : list SCIP_VAR) (lpcandssol lpcandsfrac : list SCIP_Real)
    (npriolpcands : nat) (forcestrongbranch : bool)
    (latestscores : list SCIP_Real) (validscores : list bool)
  : SCIP_RETCODE * SelectState :=
  let nlpcands := length lpcands in
  let lpobjval := SCIPgetLPObjval scip log in
  let st := select_init scip log latestscores validscores in
  if (negb forcestrongbranch && (nlpcands =? 1)%nat) || SCIPisStopped scip log
  then (SCIP_OKAY, st)
  else
    let rc := SCIPstartStrongbranch scip log false in
    if decide (rc = SCIP_OKAY) then
      let st := loop_entry scip log nlpcands latestscores validscores in
      match candidate_loop scip forcestrongbranch lpobjval lpcands 0 st with
      | (Return rc, st) => (rc, st)
      | (_, st) =>
          (SCIPendStrongbranch scip (sel_log st),
           set_log st (sel_log st ++ [CallEndStrongbranch]))
      end
    else (rc, set_log st (log ++ [CallStartStrongbranch false])).

(** ** Rule data, creation, execution, destruction *)

Definition DEFAULT_FORCESTRONGBRANCH : bool := true.

(** [struct SCIP_BranchruleData]; a NULL buffer is [None]. *)
Record SCIP_BranchruleData : Set := {
  forcestrongbranch : bool;
  scoresize : nat;
  latestscores : option (list SCIP_Real);
  validscores : option (list bool)
}.

(** The rule data as [SCIPincludeBranchruleFullstrongVanilla] leaves it:
    both buffers NULL, size 0, and the parameter at its default, which
    [SCIPaddBoolParam] stores through [&branchruledata->forcestrongbranch].
    The allocation of the record and the registration calls are taken to
    succeed. *)
Definition SCIPincludeBranchruleFullstrongVanilla : SCIP_BranchruleData :=
  {| forcestrongbranch := DEFAULT_FORCESTRONGBRANCH;
     scoresize := 0;
     latestscores := None;
     validscores := None |}.

(** Lines 81-82: [SCIPfreeBlockMemoryArrayNull] on both buffers; the macro
    nulls the pointer it frees. *)
Definition free_score_buffers (d : SCIP_BranchruleData) : SCIP_BranchruleData :=
  {| forcestrongbranch := forcestrongbranch d;
     scoresize := scoresize d;
     latestscores := None;
     validscores := None |}.

(** [branchFreeFullstrong]: the buffers are released, then the record, and
    the data pointer of the rule becomes NULL. *)
Definition branchFreeFullstrong (d : SCIP_BranchruleData)
  : SCIP_RETCODE * option SCIP_BranchruleData :=
  let _ := free_score_buffers d in
  (SCIP_OKAY, None).

(** [branchInitFullstrong] and [branchExitFullstrong] do nothing. *)
Definition branchInitFullstrong : SCIP_RETCODE := SCIP_OKAY.

Definition branchExitFullstrong : SCIP_RETCODE := SCIP_OKAY.

Definition SCIPgetFullstrongVanillaLatestScores (d : SCIP_BranchruleData)
  : option (list SCIP_Real) := latestscores d.

Definition SCIPgetFullstrongVanillaValidScores (d : SCIP_BranchruleData)
  : option (list bool) := validscores d.

(** Lines 402-404: scratch copies of the three candidate arrays, each under
    [SCIP_CALL]; the first request that fails makes the callback return.
    The copies hold the values of the originals, which the rule never
    changes, so the selection is run on the lists themselves. *)
Definition duplicate_candidate_arrays (scip : Host) (log : Log)
    (nlpcands : nat) : SCIP_RETCODE :=
  let rc := SCIPduplicateBufferArray scip log ArrLpcands nlpcands in
  if decide (rc = SCIP_OKAY) then
    let rc := SCIPduplicateBufferArray scip log ArrLpcandssol nlpcands in
    if decide (rc = SCIP_OKAY) then
      SCIPduplicateBufferArray scip log ArrLpcandsfrac nlpcands
    else rc
  else rc.

(** Lines 409-419: release the old buffers if there are any, set the size,
    then allocate both buffers with [nlpcands] entries, each under
    [SCIP_CALL], and clear them to zero bytes.  An allocation that fails
    leaves NULL in its pointer and makes the callback return at once: after
    a failure of the second one [latestscores] is allocated, not yet cleared,
    and [validscores] is NULL. *)
Definition reset_score_buffers (scip : Host) (log : Log)
    (d : SCIP_BranchruleData) (nlpcands : nat)
  : SCIP_RETCODE * SCIP_BranchruleData :=
  let d :=
    match latestscores d with
    | Some _ => free_score_buffers d
    | None => d
    end in
  let rc := SCIPallocBlockMemoryArray scip log sizeof_SCIP_Real nlpcands in
  if decide (rc = SCIP_OKAY) then
    let rc := SCIPallocBlockMemoryArray scip log sizeof_SCIP_Bool nlpcands in
    if decide (rc = SCIP_OKAY) then
      (SCIP_OKAY,
       {| forcestrongbranch := forcestrongbranch d;
          scoresize := nlpcands;
          latestscores := Some (replicate nlpcands 0);
          validscores := Some (replicate nlpcands false) |})
    else
      (rc,
       {| forcestrongbranch := forcestrongbranch d;
          scoresize := nlpcands;
          latestscores := Some (map (uncleared_real scip log) (seq 0 nlpcands));
          validscores := None |})
  else
    (rc,
     {| forcestrongbranch := forcestrongbranch d;
        scoresize := nlpcands;
        latestscores := None;
        validscores := validscores d |}).

(** The selection writes through the two buffer pointers of the rule data. *)
Definition write_back (d : SCIP_BranchruleData) (st : SelectState)
  : SCIP_BranchruleData :=
  {| forcestrongbranch := forcestrongbranch d;
     scoresize := scoresize d;
     latestscores := Some (sel_latestscores st);
     validscores := Some (sel_validscores st) |}.

Definition buffer_of {A : Set} (p : option (list A)) : list A :=
  match p with
  | Some l => l
  | None => []
  end.

(** What the host sees when the callback returns. *)
Record ExecOutcome : Set := {
  exec_retcode : SCIP_RETCODE;
  exec_result : SCIP_RESULT;
  exec_data : SCIP_BranchruleData;
  exec_log : Log
}.

(** [branchExeclpFullstrong], lines 362-461: the candidate query, the
    scratch copies, the fresh score buffers, the selection and the branch
    request, each under [SCIP_CALL]. *)
Definition branchExeclpFullstrong (scip : Host) (log : Log)
    (branchruledata : SCIP_BranchruleData) : ExecOutcome :=
  let result := SCIP_DIDNOTRUN in
  let '(rc, cands) := SCIPgetLPBranchCands scip log in
  let log := log ++ [CallGetLPBranchCands] in
  if decide (rc = SCIP_OKAY) then
    let lpcands := tmplpcands cands in
    let lpcandssol := tmplpcandssol cands in
    let lpcandsfrac := tmplpcandsfrac cands in
    let nlpcands := length lpcands in
    let rc := duplicate_candidate_arrays scip log nlpcands in
    if decide (rc = SCIP_OKAY) then
      let '(rc, d) := reset_score_buffers scip log branchruledata nlpcands in
      if decide (rc = SCIP_OKAY) then
        let '(rc, st) :=
          SCIPselectVarStrongBranchingVanilla scip log lpcands lpcandssol
            lpcandsfrac (tmpnpriolpcands cands) (forcestrongbranch d)
            (buffer_of (latestscores d)) (buffer_of (validscores d)) in
        let d := write_back d st in
        if decide (rc = SCIP_OKAY) then
          let var := default 0%nat (lpcands !! bestcand st) in
          let val := default 0 (lpcandssol !! bestcand st) in
          let rc := SCIPbranchVarVal scip (sel_log st) var val in
          let log := sel_log st ++ [CallBranchVarVal var val] in
          if decide (rc = SCIP_OKAY) then
            {| exec_retcode := SCIP_OKAY; exec_result := SCIP_BRANCHED;
               exec_data := d; exec_log := log |}
          else
            {| exec_retcode := rc; exec_result := result;
               exec_data := d; exec_log := log |}
        else
          {| exec_retcode := rc; exec_result := result;
             exec_data := d; exec_log := sel_log st |}
      else
        {| exec_retcode := rc; exec_result := result;
           exec_data := d; exec_log := log |}
    else
      {| exec_retcode := rc; exec_result := result;
         exec_data := branchruledata; exec_log := log |}
  else
    {| exec_retcode := rc; exec_result := result;
       exec_data := branchruledata; exec_log := log |}.

(** ** Concrete hosts for the scenarios *)

(** A host for which every probe succeeds: the LP oracle answers from a
    table indexed by the variable handle. *)
Definition table_host (inf lpobj cutoff : SCIP_Real) (force_stop : bool)
    (factor : SCIP_VAR -> SCIP_Real)
    (oracle : SCIP_VAR -> StrongbranchResult)
    (cands : LPBranchCands) : Host :=
  {| SCIPinfinity := inf;
     SCIPgetLPObjval := fun _ => lpobj;
     SCIPgetCutoffbound := fun _ => cutoff;
     SCIPisGE := fun x y => y <=? x;
     SCIPvarGetBranchFactor := factor;
     SCIPgetBranchScore := fun _ downgain upgain => downgain * upgain;
     SCIPisStopped := fun _ => force_stop;
     SCIPsolveIsStopped := fun _ => force_stop;
     SCIPcheckStage := fun _ => SCIP_OKAY;
     SCIPvarGetStatus := fun _ => SCIP_VARSTATUS_COLUMN;
     SCIPcolIsInLP := fun _ => true;
     SCIPstartStrongbranch := fun _ _ => SCIP_OKAY;
     SCIPcolGetStrongbranch := fun _ var _ _ => (SCIP_OKAY, oracle var);
     SCIPendStrongbranch := fun _ => SCIP_OKAY;
     SCIPgetLPBranchCands := fun _ => (SCIP_OKAY, cands);
     SCIPbranchVarVal := fun _ _ _ => SCIP_OKAY;
     SCIPduplicateBufferArray := fun _ _ _ => SCIP_OKAY;
     SCIPallocBlockMemoryArray := fun _ _ _ => SCIP_OKAY;
     uncleared_real := fun _ _ => 0 |}.

Definition sb (down up : SCIP_Real) (downvalid upvalid lperror : bool)
  : StrongbranchResult :=
  {| res_down := down; res_up := up;
     res_downvalid := downvalid; res_upvalid := upvalid;
     res_lperror := lperror |}.

Definition three_cands : LPBranchCands :=
  {| tmplpcands := [1; 2; 3]%nat;
     tmplpcandssol := [0.5; 1.5; 2.5];
     tmplpcandsfrac := [0.5; 0.5; 0.5];
     tmpnpriolpcands := 3 |}.

(** Scenario S2: three two-sided feasible candidates. *)
Definition host_S2 : Host :=
  table_host 1e20 10 100 false (fun _ => 1)
    (fun var =>
       match var with
       | 1%nat => sb 11 12 true true false
       | 2%nat => sb 10.5 14 true true false
       | _ => sb 13 13.5 true true false
       end)
    three_cands.

(** Scenario S4: candidate 0 is two-sided feasible with score 50, candidate
    1 is infeasible downwards with [upgain * factor = 5]. *)
Definition two_cands : LPBranchCands :=
  {| tmplpcands := [1; 2]%nat;
     tmplpcandssol := [0.5; 1.5];
     tmplpcandsfrac := [0.5; 0.5];
     tmpnpriolpcands := 2 |}.

Definition host_S4 : Host :=
  table_host 1e20 0 100 false (fun _ => 1)
    (fun var =>
       match var with
       | 1%nat => sb 5 10 true true false
       | _ => sb 150 5 true true false
       end)
    two_cands.

(** S4 with the two candidates swapped: the down-infeasible candidate
    (score 5) comes first, the two-sided feasible one (score 50) second. *)
Definition host_S4_swapped : Host :=
  table_host 1e20 0 100 false (fun _ => 1)
    (fun var =>
       match var with
       | 1%nat => sb 150 5 true true false
       | _ => sb 5 10 true true false
       end)
    two_cands.

(** Scenario S3: candidate 1 is infeasible on both sides. *)
Definition host_S3 : Host :=
  table_host 1e20 0 100 false (fun _ => 1)
    (fun var =>
       match var with
       | 1%nat => sb 5 10 true true false
       | 2%nat => sb 101 102 true true false
       | _ => sb 20 30 true true false
       end)
    three_cands.

(** Force mode with several candidates infeasible on both sides
    (candidates 1 and 2). *)
Definition host_two_cutoffs : Host :=
  table_host 1e20 0 100 false (fun _ => 1)
    (fun var =>
       match var with
       | 1%nat => sb 5 10 true true false
       | 2%nat => sb 101 102 true true false
       | _ => sb 103 104 true true false
       end)
    three_cands.

(** A node without incumbent: the cutoff bound is [SCIPinfinity].  The down
    child of candidate 0 is proved infeasible, its up bound is as large but
    only an estimate ([upvalid = FALSE]); candidates 1 and 2 are infeasible
    on both sides. *)
Definition host_no_incumbent : Host :=
  table_host 1e20 0 1e20 false (fun _ => 1)
    (fun var =>
       match var with
       | 1%nat => sb 1e20 1e20 true false false
       | _ => sb 1e20 1e20 true true false
       end)
    three_cands.

(** Scenario S5: the probe of candidate 1 reports an LP error. *)
Definition host_S5 : Host :=
  table_host 1e20 0 100 false (fun _ => 1)
    (fun var =>
       match var with
       | 1%nat => sb 5 10 true true false
       | 2%nat => sb 0 0 false false true
       | _ => sb 20 30 true true false
       end)
    three_cands.

(** A host that is being stopped. *)
Definition host_stopped : Host :=
  table_host 1e20 0 100 true (fun _ => 1)
    (fun _ => sb 5 10 true true false) two_cands.

(** Scenario S1: a single candidate. *)
Definition one_cand : LPBranchCands :=
  {| tmplpcands := [7]%nat;
     tmplpcandssol := [0.5];
     tmplpcandsfrac := [0.5];
     tmpnpriolpcands := 1 |}.

Definition host_S1 : Host :=
  table_host 1e20 0 100 false (fun _ => 1)
    (fun _ => sb 5 10 true true false) one_cand.

(** Rule data with the parameter [forcestrongbranch] switched off by the
    host, before any execution. *)
Definition data_no_force : SCIP_BranchruleData :=
  {| forcestrongbranch := false;
     scoresize := 0;
     latestscores := None;
     validscores := None |}.

(** ** Vocabulary of the statements *)

(** The probe call of the loop body, made in state [st] for [var]. *)
Definition probe_call (scip : Host) (st : SelectState) (var : SCIP_VAR)
  : SCIP_RETCODE * SBCells * Log :=
  SCIPgetVarStrongbranchFracVanilla scip (sel_log st) var INT_MAX
    (sb_args scip st).

(** The log right after that call. *)
Definition probe_log (scip : Host) (st : SelectState) (var : SCIP_VAR) : Log :=
  (probe_call scip st var).2.

(** The loop state right after that call. *)
Definition probed (scip : Host) (st : SelectState) (var : SCIP_VAR)
  : SelectState :=
  let '(_, cells, log') := probe_call scip st var in
  after_probe st cells log'.

(** The probe succeeds ([SCIP_OKAY], no [lperror]) and the loop body derives
    the verdict [v] from it. *)
Definition probe_verdict (scip : Host) (lpobjval : SCIP_Real)
    (st : SelectState) (var : SCIP_VAR) : option Verdict :=
  let '(rc, cells, log') := probe_call scip st var in
  if decide (rc = SCIP_OKAY) then
    if sb_lperror cells then None
    else Some (evaluate scip log' lpobjval var cells)
  else None.

(** The probe returns [SCIP_OKAY] and reports [lperror]. *)
Definition probe_lperror (scip : Host) (st : SelectState) (var : SCIP_VAR)
  : bool :=
  let '(rc, cells, _) := probe_call scip st var in
  bool_decide (rc = SCIP_OKAY) && sb_lperror cells.

(** The loop started in [st0] gets to candidate [k] in state [stk]: the
    [k] passes before it all fell through (no [break], no error). *)
Definition reaches (scip : Host) (forcestrongbranch : bool)
    (lpobjval : SCIP_Real) (lpcands : list SCIP_VAR) (st0 : SelectState)
    (k : nat) (stk : SelectState) : Prop :=
  candidate_loop scip forcestrongbranch lpobjval (take k lpcands) 0 st0
  = (Continue, stk).

(** The selection does not return before the loop: line 251 falls through
    and [SCIPstartStrongbranch] succeeds. *)
Definition enters_loop (scip : Host) (log : Log) (lpcands : list SCIP_VAR)
    (forcestrongbranch : bool) : Prop :=
  (negb forcestrongbranch && (length lpcands =? 1)%nat) || SCIPisStopped scip log
  = false
  /\ SCIPstartStrongbranch scip log false = SCIP_OKAY.

(** Both allocations of lines 416-417 are granted, for [n] candidates and a
    callback entered on [log]. *)
Definition score_buffers_allocated (scip : Host) (log : Log) (n : nat) : Prop :=
  SCIPallocBlockMemoryArray scip (log ++ [CallGetLPBranchCands])
    sizeof_SCIP_Real n = SCIP_OKAY
  /\ SCIPallocBlockMemoryArray scip (log ++ [CallGetLPBranchCands])
       sizeof_SCIP_Bool n = SCIP_OKAY.

(** The host grants all the memory an execution on [n] candidates asks
    for: the three scratch copies and the two score buffers. *)
Definition memory_granted (scip : Host) (log : Log) (n : nat) : Prop :=
  duplicate_candidate_arrays scip (log ++ [CallGetLPBranchCands]) n
  = SCIP_OKAY
  /\ score_buffers_allocated scip log n.

(** Both buffers NULL, or both allocated with [scoresize] entries. *)
Definition buffers_ok (d : SCIP_BranchruleData) : Prop :=
  match latestscores d, validscores d with
  | None, None => True
  | Some ls, Some vs => length ls = scoresize d /\ length vs = scoresize d
  | _, _ => False
  end.

Definition rule_ok (r : option SCIP_BranchruleData) : Prop :=
  match r with
  | Some d => buffers_ok d
  | None => True
  end.

(** The host may change the parameter between calls. *)
Definition set_forcestrongbranch (d : SCIP_BranchruleData) (b : bool)
  : SCIP_BranchruleData :=
  {| forcestrongbranch := b;
     scoresize := scoresize d;
     latestscores := latestscores d;
     validscores := validscores d |}.

(** The values the data pointer of the rule can take over its life. *)
Inductive rule_reachable : option SCIP_BranchruleData -> Prop :=
| reach_include :
    rule_reachable (Some SCIPincludeBranchruleFullstrongVanilla)
| reach_param d b :
    rule_reachable (Some d) ->
    rule_reachable (Some (set_forcestrongbranch d b))
| reach_exec scip log d :
    rule_reachable (Some d) ->
    rule_reachable (Some (exec_data (branchExeclpFullstrong scip log d)))
| reach_free d :
    rule_reachable (Some d) ->
    rule_reachable (branchFreeFullstrong d).2.

(** The loop state after the probe of [var] and the stores of lines
    320-327. *)
Definition scored (scip : Host) (c : nat) (var : SCIP_VAR) (v : Verdict)
    (st : SelectState) : SelectState :=
  record_score c v (probed scip st var).

(** Entry [i] of both buffers is the same in [st] and [st']. *)
Definition same_entry (i : nat) (st st' : SelectState) : Prop :=
  sel_latestscores st' !! i = sel_latestscores st !! i
  /\ sel_validscores st' !! i = sel_validscores st !! i.

(** Both buffers have the same length in [st] and [st']. *)
Definition same_lengths (st st' : SelectState) : Prop :=
  length (sel_latestscores st') = length (sel_latestscores st)
  /\ length (sel_validscores st') = length (sel_validscores st).

(** Lines 354-357, after the loop has been left in the way [r]. *)
Definition finish (scip : Host) (r : Flow * SelectState)
  : SCIP_RETCODE * SelectState :=
  match r with
  | (Return rc, st) => (rc, st)
  | (_, st) =>
      (SCIPendStrongbranch scip (sel_log st),
       set_log st (sel_log st ++ [CallEndStrongbranch]))
  end.

(** ** States and verdicts of the scenarios *)

(** The loop state of a scenario host on entry to the loop, with the
    buffers as [branchExeclpFullstrong] hands them over. *)
Definition scenario_entry (scip : Host) : SelectState :=
  let n := length (tmplpcands (SCIPgetLPBranchCands scip []).2) in
  loop_entry scip [] n (replicate n 0) (replicate n false).

(** The selection of a scenario host, called as [branchExeclpFullstrong]
    calls it but on an empty log. *)
Definition scenario_select (scip : Host) (force : bool)
  : SCIP_RETCODE * SelectState :=
  let cands := (SCIPgetLPBranchCands scip []).2 in
  let n := length (tmplpcands cands) in
  SCIPselectVarStrongBranchingVanilla scip [] (tmplpcands cands)
    (tmplpcandssol cands) (tmplpcandsfrac cands) (tmpnpriolpcands cands)
    force (replicate n 0) (replicate n false).

(** The loop state after the first pass. *)
Definition scenario_after_first (scip : Host) (force : bool) : SelectState :=
  (iteration scip force (SCIPgetLPObjval scip []) 0 1
     (scenario_entry scip)).2.

(** A two-sided feasible verdict: bounds 5 and 10 over an LP value of 0. *)
Definition verdict_regular : Verdict :=
  {| v_down := 5; v_up := 10; v_downvalid := true; v_upvalid := true;
     v_downgain := 5; v_upgain := 10; v_downinf := false; v_upinf := false;
     v_score := 50 |}.

(** A verdict infeasible downwards: bounds 150 and 5, cutoff 100. *)
Definition verdict_downinf : Verdict :=
  {| v_down := 150; v_up := 5; v_downvalid := true; v_upvalid := true;
     v_downgain := 150; v_upgain := 5; v_downinf := true; v_upinf := false;
     v_score := 5 |}.

(** A verdict infeasible on both sides: bounds 101 and 102, cutoff 100. *)
Definition verdict_cutoff : Verdict :=
  {| v_down := 101; v_up := 102; v_downvalid := true; v_upvalid := true;
     v_downgain := 101; v_upgain := 102; v_downinf := true; v_upinf := true;
     v_score := 1e20 |}.

(** Without incumbent: both bounds at [SCIPinfinity], both proved. *)
Definition verdict_cutoff_inf : Verdict :=
  {| v_down := 1e20; v_up := 1e20; v_downvalid := true; v_upvalid := true;
     v_downgain := 1e20; v_upgain := 1e20; v_downinf := true; v_upinf := true;
     v_score := 1e20 |}.

(** The loop state after the second pass. *)
Definition scenario_after_second (scip : Host) (force : bool) : SelectState :=
  (iteration scip force (SCIPgetLPObjval scip []) 1 2
     (scenario_after_first scip force)).2.

(** Without incumbent: the down bound proved at [SCIPinfinity], the up
    bound as large but only estimated, so infeasible downwards only. *)
Definition verdict_downinf_inf : Verdict :=
  {| v_down := 1e20; v_up := 1e20; v_downvalid := true; v_upvalid := false;
     v_downgain := 1e20; v_upgain := 1e20; v_downinf := true; v_upinf := false;
     v_score := 1e20 |}.

(** Probe cells as the loop hands them over after a probe whose two bounds
    were proved: both validity flags hold [TRUE]. *)
Definition cells_valid : SBCells :=
  {| sb_down := (-1e20)%float; sb_up := (-1e20)%float;
     sb_downvalid := Some true; sb_upvalid := Some true;
     sb_lperror := false |}.

(** The complete log of a selection that probes three candidates. *)
Definition log_three_probes : list Call :=
  [CallStartStrongbranch false;
   CallGetVarStrongbranchFracVanilla 1 INT_MAX;
   CallColGetStrongbranch 1 false INT_MAX;
   CallGetVarStrongbranchFracVanilla 2 INT_MAX;
   CallColGetStrongbranch 2 false INT_MAX;
   CallGetVarStrongbranchFracVanilla 3 INT_MAX;
   CallColGetStrongbranch 3 false INT_MAX;
   CallEndStrongbranch].

(** The complete log of a selection that leaves the loop at the second
    candidate. *)
Definition log_two_probes : list Call :=
  [CallStartStrongbranch false;
   CallGetVarStrongbranchFracVanilla 1 INT_MAX;
   CallColGetStrongbranch 1 false INT_MAX;
   CallGetVarStrongbranchFracVanilla 2 INT_MAX;
   CallColGetStrongbranch 2 false INT_MAX;
   CallEndStrongbranch].

(** ** Vocabulary of the further properties *)

(** The variables whose probes a log records, in the order of the calls. *)
Definition probe_entries (log : Log) : list SCIP_VAR :=
  omap (fun call =>
          match call with
          | CallGetVarStrongbranchFracVanilla var _ => Some var
          | _ => None
          end) log.

(** The calls the selection can make: strong branching started without
    propagation, probes and LP oracle calls for a fractional value with the
    iteration limit [INT_MAX], strong branching ended. *)
Definition selection_call (call : Call) : bool :=
  match call with
  | CallStartStrongbranch enablepropagation => negb enablepropagation
  | CallGetVarStrongbranchFracVanilla _ itlim => (itlim =? INT_MAX)%Z
  | CallColGetStrongbranch _ integral itlim =>
      negb integral && (itlim =? INT_MAX)%Z
  | CallEndStrongbranch => true
  | CallGetLPBranchCands => false
  | CallBranchVarVal _ _ => false
  end.

Definition is_branch_call (call : Call) : bool :=
  match call with
  | CallBranchVarVal _ _ => true
  | _ => false
  end.

(** The candidate has an infeasible side. *)
Definition infeasible_side (v : Verdict) : bool := v_downinf v || v_upinf v.

(** All preconditions of the probe hold and the solver is not being
    stopped, for a probe of [var] called on [log]. *)
Definition probe_goes_through (scip : Host) (log : Log) (var : SCIP_VAR)
    (itlim : Z) : bool :=
  bool_decide
    (SCIPcheckStage scip (log ++ [CallGetVarStrongbranchFracVanilla var itlim])
     = SCIP_OKAY)
  && bool_decide (SCIPvarGetStatus scip var = SCIP_VARSTATUS_COLUMN)
  && SCIPcolIsInLP scip var
  && negb (SCIPsolveIsStopped scip
             (log ++ [CallGetVarStrongbranchFracVanilla var itlim])).

(** S3 with candidate 1 a loose variable, which the probe rejects. *)
Definition host_loose_var : Host :=
  {| SCIPinfinity := SCIPinfinity host_S3;
     SCIPgetLPObjval := SCIPgetLPObjval host_S3;
     SCIPgetCutoffbound := SCIPgetCutoffbound host_S3;
     SCIPisGE := SCIPisGE host_S3;
     SCIPvarGetBranchFactor := SCIPvarGetBranchFactor host_S3;
     SCIPgetBranchScore := SCIPgetBranchScore host_S3;
     SCIPisStopped := SCIPisStopped host_S3;
     SCIPsolveIsStopped := SCIPsolveIsStopped host_S3;
     SCIPcheckStage := SCIPcheckStage host_S3;
     SCIPvarGetStatus :=
       fun var =>
         match var with
         | 2 => SCIP_VARSTATUS_LOOSE
         | _ => SCIP_VARSTATUS_COLUMN
         end;
     SCIPcolIsInLP := SCIPcolIsInLP host_S3;
     SCIPstartStrongbranch := SCIPstartStrongbranch host_S3;
     SCIPcolGetStrongbranch := SCIPcolGetStrongbranch host_S3;
     SCIPendStrongbranch := SCIPendStrongbranch host_S3;
     SCIPgetLPBranchCands := SCIPgetLPBranchCands host_S3;
     SCIPbranchVarVal := SCIPbranchVarVal host_S3;
     SCIPduplicateBufferArray := SCIPduplicateBufferArray host_S3;
     SCIPallocBlockMemoryArray := SCIPallocBlockMemoryArray host_S3;
     uncleared_real := uncleared_real host_S3 |}.

(** S2 with a time limit that is hit after the first LP call: the stop test
    answers yes once the log has three entries. *)
Definition host_stops_midway : Host :=
  {| SCIPinfinity := SCIPinfinity host_S2;
     SCIPgetLPObjval := SCIPgetLPObjval host_S2;
     SCIPgetCutoffbound := SCIPgetCutoffbound host_S2;
     SCIPisGE := SCIPisGE host_S2;
     SCIPvarGetBranchFactor := SCIPvarGetBranchFactor host_S2;
     SCIPgetBranchScore := SCIPgetBranchScore host_S2;
     SCIPisStopped := fun log => bool_decide (3 <= length log);
     SCIPsolveIsStopped := fun log => bool_decide (3 <= length log);
     SCIPcheckStage := SCIPcheckStage host_S2;
     SCIPvarGetStatus := SCIPvarGetStatus host_S2;
     SCIPcolIsInLP := SCIPcolIsInLP host_S2;
     SCIPstartStrongbranch := SCIPstartStrongbranch host_S2;
     SCIPcolGetStrongbranch := SCIPcolGetStrongbranch host_S2;
     SCIPendStrongbranch := SCIPendStrongbranch host_S2;
     SCIPgetLPBranchCands := SCIPgetLPBranchCands host_S2;
     SCIPbranchVarVal := SCIPbranchVarVal host_S2;
     SCIPduplicateBufferArray := SCIPduplicateBufferArray host_S2;
     SCIPallocBlockMemoryArray := SCIPallocBlockMemoryArray host_S2;
     uncleared_real := uncleared_real host_S2 |}.

(** A host whose [SCIPstartStrongbranch] fails. *)
Definition host_start_fails : Host :=
  {| SCIPinfinity := SCIPinfinity host_S2;
     SCIPgetLPObjval := SCIPgetLPObjval host_S2;
     SCIPgetCutoffbound := SCIPgetCutoffbound host_S2;
     SCIPisGE := SCIPisGE host_S2;
     SCIPvarGetBranchFactor := SCIPvarGetBranchFactor host_S2;
     SCIPgetBranchScore := SCIPgetBranchScore host_S2;
     SCIPisStopped := SCIPisStopped host_S2;
     SCIPsolveIsStopped := SCIPsolveIsStopped host_S2;
     SCIPcheckStage := SCIPcheckStage host_S2;
     SCIPvarGetStatus := SCIPvarGetStatus host_S2;
     SCIPcolIsInLP := SCIPcolIsInLP host_S2;
     SCIPstartStrongbranch := fun _ _ => SCIP_INVALIDCALL;
     SCIPcolGetStrongbranch := SCIPcolGetStrongbranch host_S2;
     SCIPendStrongbranch := SCIPendStrongbranch host_S2;
     SCIPgetLPBranchCands := SCIPgetLPBranchCands host_S2;
     SCIPbranchVarVal := SCIPbranchVarVal host_S2;
     SCIPduplicateBufferArray := SCIPduplicateBufferArray host_S2;
     SCIPallocBlockMemoryArray := SCIPallocBlockMemoryArray host_S2;
     uncleared_real := uncleared_real host_S2 |}.

(** S2 on a machine short of memory: the block of reals is granted (it
    holds 7 in every entry before it is cleared), the block of Booleans is
    refused. *)
Definition host_no_memory : Host :=
  {| SCIPinfinity := SCIPinfinity host_S2;
     SCIPgetLPObjval := SCIPgetLPObjval host_S2;
     SCIPgetCutoffbound := SCIPgetCutoffbound host_S2;
     SCIPisGE := SCIPisGE host_S2;
     SCIPvarGetBranchFactor := SCIPvarGetBranchFactor host_S2;
     SCIPgetBranchScore := SCIPgetBranchScore host_S2;
     SCIPisStopped := SCIPisStopped host_S2;
     SCIPsolveIsStopped := SCIPsolveIsStopped host_S2;
     SCIPcheckStage := SCIPcheckStage host_S2;
     SCIPvarGetStatus := SCIPvarGetStatus host_S2;
     SCIPcolIsInLP := SCIPcolIsInLP host_S2;
     SCIPstartStrongbranch := SCIPstartStrongbranch host_S2;
     SCIPcolGetStrongbranch := SCIPcolGetStrongbranch host_S2;
     SCIPendStrongbranch := SCIPendStrongbranch host_S2;
     SCIPgetLPBranchCands := SCIPgetLPBranchCands host_S2;
     SCIPbranchVarVal := SCIPbranchVarVal host_S2;
     SCIPduplicateBufferArray := SCIPduplicateBufferArray host_S2;
     SCIPallocBlockMemoryArray :=
       fun _ size _ =>
         if (size =? sizeof_SCIP_Bool)%Z then SCIP_NOMEMORY else SCIP_OKAY;
     uncleared_real := fun _ _ => 7%float |}.

(** The node of S3 with a large branch factor on candidate 0: all bounds
    are proved, candidate 0 is infeasible downwards only and scores
    [upgain * factor = 50 * 2e18], candidates 1 and 2 are infeasible on both
    sides. *)
Definition host_large_factor : Host :=
  table_host 1e20 0 100 false
    (fun var => match var with 1 => 2e18%float | _ => 1%float end)
    (fun var =>
       match var with
       | 1 => sb 150 50 true true false
       | _ => sb 101 102 true true false
       end)
    three_cands.

(** The verdict on candidate 0 of that node: infeasible downwards only,
    with the score [50 * 2e18 = SCIPinfinity]. *)
Definition verdict_downinf_large : Verdict :=
  {| v_down := 150; v_up := 50; v_downvalid := true; v_upvalid := true;
     v_downgain := 150; v_upgain := 50; v_downinf := true; v_upinf := false;
     v_score := 1e20 |}.

(** The callback of a scenario host, run on fresh rule data and an empty
    log. *)
Definition scenario_exec (scip : Host) : ExecOutcome :=
  branchExeclpFullstrong scip [] SCIPincludeBranchruleFullstrongVanilla.

(** * Properties *)

Close Scope float_scope.

(** ** Floating-point comparison *)

Lemma ltb_irrefl (x : SCIP_Real) : (x <? x)%float = false.
Proof.
  rewrite ltb_spec. unfold SFltb, SFcompare.
  destruct (Prim2SF x) as [s|s| |s m e]; try reflexivity;
    try (destruct s; reflexivity).
  destruct s; rewrite Z.compare_refl, Pos.compare_refl; reflexivity.
Qed.

(** ** The probe *)

Lemma probe_call_log scip st var :
  exists tail,
    probe_log scip st var
    = sel_log st ++ CallGetVarStrongbranchFracVanilla var INT_MAX :: tail.
Proof.
  unfold probe_log, probe_call, SCIPgetVarStrongbranchFracVanilla.
  repeat case_match; simplify_eq/=;
    try (exists []; reflexivity).
  eexists. rewrite <- app_assoc. reflexivity.
Qed.

Section Probed.
Context (scip : Host) (st : SelectState) (var : SCIP_VAR).

Lemma probed_log : sel_log (probed scip st var) = probe_log scip st var.
Proof.
  unfold probed, probe_log.
  destruct (probe_call scip st var) as [[rc cells] log']. reflexivity.
Qed.

Lemma probed_best :
  bestcand (probed scip st var) = bestcand st
  /\ bestscore (probed scip st var) = bestscore st
  /\ bestdown (probed scip st var) = bestdown st
  /\ bestup (probed scip st var) = bestup st
  /\ bestdownvalid (probed scip st var) = bestdownvalid st
  /\ bestupvalid (probed scip st var) = bestupvalid st
  /\ besthasinf (probed scip st var) = besthasinf st.
Proof.
  unfold probed.
  destruct (probe_call scip st var) as [[rc cells] log']. by repeat split.
Qed.

Lemma probed_buffers :
  sel_latestscores (probed scip st var) = sel_latestscores st
  /\ sel_validscores (probed scip st var) = sel_validscores st.
Proof.
  unfold probed.
  destruct (probe_call scip st var) as [[rc cells] log']. by split.
Qed.
End Probed.

(** ** One pass of the loop body, by outcome of the probe *)

Lemma iteration_of_verdict scip force lpobjval c var st v :
  probe_verdict scip lpobjval st var = Some v ->
  iteration scip force lpobjval c var st
  = if replaces_best v (scored scip c var v st)
    then (if negb force && v_downinf v && v_upinf v then Break else Continue,
          new_best c v (scored scip c var v st))
    else (Continue, scored scip c var v st).
Proof.
  unfold probe_verdict, iteration, scored, probed, probe_call.
  destruct (SCIPgetVarStrongbranchFracVanilla _ _ _ _ _) as [[rc cells] log'].
  cbn [after_probe lperror].
  destruct (decide (rc = SCIP_OKAY)); [|discriminate].
  destruct (sb_lperror cells); [discriminate|].
  intros [= <-]. repeat case_match; reflexivity.
Qed.

Lemma iteration_of_lperror scip force lpobjval c var st :
  probe_lperror scip st var = true ->
  iteration scip force lpobjval c var st = (Break, probed scip st var).
Proof.
  unfold probe_lperror, iteration, probed, probe_call.
  destruct (SCIPgetVarStrongbranchFracVanilla _ _ _ _ _) as [[rc cells] log'].
  cbn [after_probe lperror].
  intros [Hrc Herr]%andb_prop. apply bool_decide_eq_true in Hrc.
  rewrite decide_True by done. by rewrite Herr.
Qed.

Lemma iteration_without_verdict scip force lpobjval c var st :
  probe_verdict scip lpobjval st var = None ->
  iteration scip force lpobjval c var st = (Break, probed scip st var)
  \/ exists rc, iteration scip force lpobjval c var st
                = (Return rc, probed scip st var).
Proof.
  unfold probe_verdict, iteration, probed, probe_call.
  destruct (SCIPgetVarStrongbranchFracVanilla _ _ _ _ _) as [[rc cells] log'].
  cbn [after_probe lperror].
  destruct (decide (rc = SCIP_OKAY)); [|by right; eexists].
  destruct (sb_lperror cells); [by left|discriminate].
Qed.

(** The verdict of a successful probe follows the case split of lines
    305-324. *)
Lemma verdict_score scip lpobjval st var v :
  probe_verdict scip lpobjval st var = Some v ->
  v_score v
  = if v_downinf v && v_upinf v then SCIPinfinity scip
    else if v_downinf v
         then (v_upgain v * SCIPvarGetBranchFactor scip var)%float
    else if v_upinf v
         then (v_downgain v * SCIPvarGetBranchFactor scip var)%float
    else SCIPgetBranchScore scip var (v_downgain v) (v_upgain v).
Proof.
  unfold probe_verdict.
  destruct (probe_call scip st var) as [[rc cells] log'].
  destruct (decide (rc = SCIP_OKAY)); [|discriminate].
  destruct (sb_lperror cells); [discriminate|]. by intros [= <-].
Qed.

Lemma verdict_gains scip lpobjval st var v :
  probe_verdict scip lpobjval st var = Some v ->
  v_downgain v = (v_down v - lpobjval)%float
  /\ v_upgain v = (v_up v - lpobjval)%float.
Proof.
  unfold probe_verdict.
  destruct (probe_call scip st var) as [[rc cells] log'].
  destruct (decide (rc = SCIP_OKAY)); [|discriminate].
  destruct (sb_lperror cells); [discriminate|]. by intros [= <-].
Qed.

(** ** The loop: splitting, and what it leaves alone *)

Lemma candidate_loop_app scip force lpobjval l1 l2 c st :
  candidate_loop scip force lpobjval (l1 ++ l2) c st
  = match candidate_loop scip force lpobjval l1 c st with
    | (Continue, st') =>
        candidate_loop scip force lpobjval l2 (c + length l1) st'
    | left_early => left_early
    end.
Proof.
  revert c st. induction l1 as [|var l1 IH]; intros c st; simpl.
  - by rewrite Nat.add_0_r.
  - destruct (iteration scip force lpobjval c var st) as [[| |rc] st'];
      try reflexivity.
    rewrite IH. by replace (S c + length l1) with (c + S (length l1)) by lia.
Qed.

Lemma candidate_loop_at scip force lpobjval lpcands st0 k var stk :
  lpcands !! k = Some var ->
  reaches scip force lpobjval lpcands st0 k stk ->
  candidate_loop scip force lpobjval lpcands 0 st0
  = match iteration scip force lpobjval k var stk with
    | (Continue, st') =>
        candidate_loop scip force lpobjval (drop (S k) lpcands) (S k) st'
    | left_early => left_early
    end.
Proof.
  intros Hk Hreach. unfold reaches in Hreach.
  rewrite <- (take_drop_middle lpcands k var Hk) at 1.
  rewrite candidate_loop_app, Hreach. simpl.
  rewrite length_take_le by (apply lookup_lt_Some in Hk; lia).
  by destruct (iteration scip force lpobjval k var stk) as [[| |rc] st'].
Qed.

Lemma reaches_later scip force lpobjval lpcands st0 k var stk st' j stj :
  lpcands !! k = Some var ->
  reaches scip force lpobjval lpcands st0 k stk ->
  iteration scip force lpobjval k var stk = (Continue, st') ->
  candidate_loop scip force lpobjval (take j (drop (S k) lpcands)) (S k) st'
  = (Continue, stj) ->
  reaches scip force lpobjval lpcands st0 (S k + j) stj.
Proof.
  intros Hk Hreach Hit Hj. unfold reaches in *.
  assert (take (S k + j) lpcands
          = take k lpcands ++ var :: take j (drop (S k) lpcands)) as ->.
  { rewrite <- (take_drop_middle lpcands k var Hk) at 1.
    assert (length (take k lpcands) = k) as Hlen
      by (rewrite length_take_le; [done|apply lookup_lt_Some in Hk; lia]).
    rewrite take_app, Hlen.
    rewrite take_ge by lia.
    by replace (S k + j - k) with (S j) by lia. }
  rewrite candidate_loop_app, Hreach. simpl.
  rewrite length_take_le by (apply lookup_lt_Some in Hk; lia).
  by rewrite Hit.
Qed.

Lemma iteration_frame scip force lpobjval c var st flow st' :
  iteration scip force lpobjval c var st = (flow, st') ->
  same_lengths st st' /\ forall i, i <> c -> same_entry i st st'.
Proof.
  unfold iteration, same_lengths, same_entry.
  destruct (SCIPgetVarStrongbranchFracVanilla _ _ _ _ _) as [[rc cells] log'].
  cbn [after_probe lperror].
  repeat case_match; intros [= <- <-]; cbn; repeat case_match;
    rewrite ?length_insert; (split; [done|]); intros i Hi;
    rewrite ?list_lookup_insert_ne by done; done.
Qed.

Lemma candidate_loop_frame scip force lpobjval l c st flow st' :
  candidate_loop scip force lpobjval l c st = (flow, st') ->
  same_lengths st st'
  /\ forall i, i < c \/ c + length l <= i -> same_entry i st st'.
Proof.
  revert c st. induction l as [|var l IH]; intros c st; simpl.
  - intros [= <- <-]. by repeat split.
  - destruct (iteration scip force lpobjval c var st) as [f st1] eqn:Hit.
    apply iteration_frame in Hit as [[Hl1 Hv1] Hfr1].
    assert (forall i, i < c \/ c + S (length l) <= i -> same_entry i st st1)
      as Hfr1' by (intros i Hi; apply Hfr1; lia).
    destruct f; [|by intros [= <- <-]..].
    intros [[Hl2 Hv2] Hfr2]%IH. split.
    + split; congruence.
    + intros i Hi.
      destruct (Hfr2 i ltac:(lia)) as [E1 E2].
      destruct (Hfr1' i ltac:(lia)) as [E3 E4].
      split; congruence.
Qed.

(** The loop of lines 262-266. *)
Lemma empty_score_buffer_spec scip n c ls vs ls' vs' :
  empty_score_buffer scip n c ls vs = (ls', vs') ->
  (length ls' = length ls /\ length vs' = length vs)
  /\ (forall i, i < c -> ls' !! i = ls !! i /\ vs' !! i = vs !! i)
  /\ (forall i, c <= i < c + n ->
        (i < length ls -> ls' !! i = Some (- SCIPinfinity scip)%float)
        /\ (i < length vs -> vs' !! i = Some false)).
Proof.
  revert c ls vs. induction n as [|n IH]; intros c ls vs; simpl.
  - intros [= <- <-]. repeat split; lia.
  - intros ([Hl Hv] & Hlow & Hfill)%IH.
    rewrite length_insert in Hl. rewrite length_insert in Hv.
    split; [by split|]. split.
    + intros i Hi. destruct (Hlow i ltac:(lia)) as [-> ->].
      split; apply list_lookup_insert_ne; lia.
    + intros i Hi. destruct (decide (i = c)) as [Heq|Hne].
      * destruct (Hlow i ltac:(lia)) as [-> ->]. rewrite Heq.
        split; intros; by apply list_lookup_insert_eq.
      * destruct (Hfill i ltac:(lia)) as [F1 F2].
        rewrite length_insert in F1. rewrite length_insert in F2. done.
Qed.

Lemma loop_entry_spec scip log n ls vs :
  let st0 := loop_entry scip log n ls vs in
  bestcand st0 = 0
  /\ bestscore st0 = (- SCIPinfinity scip)%float
  /\ besthasinf st0 = false
  /\ sel_log st0 = log ++ [CallStartStrongbranch false]
  /\ length (sel_latestscores st0) = length ls
  /\ length (sel_validscores st0) = length vs
  /\ forall i, i < n ->
       (i < length ls ->
        sel_latestscores st0 !! i = Some (- SCIPinfinity scip)%float)
       /\ (i < length vs -> sel_validscores st0 !! i = Some false).
Proof.
  unfold loop_entry.
  destruct (empty_score_buffer scip n 0 ls vs) as [ls' vs'] eqn:Hfill.
  apply empty_score_buffer_spec in Hfill as ([Hl Hv] & _ & Hfill).
  cbn. repeat split; try done; intros; apply Hfill; lia.
Qed.

(** ** The selection, once it has entered the loop *)

Lemma select_enters scip log lpcands sol frac nprio force ls vs :
  enters_loop scip log lpcands force ->
  SCIPselectVarStrongBranchingVanilla scip log lpcands sol frac nprio force
    ls vs
  = finish scip
      (candidate_loop scip force (SCIPgetLPObjval scip log) lpcands 0
         (loop_entry scip log (length lpcands) ls vs)).
Proof.
  intros [Hgo Hstart]. unfold SCIPselectVarStrongBranchingVanilla, finish.
  rewrite Hgo, Hstart. rewrite decide_True by done.
  by destruct (candidate_loop _ _ _ _ _ _) as [[| |rc] st].
Qed.

Lemma finish_state scip flow st :
  let st' := (finish scip (flow, st)).2 in
  bestcand st' = bestcand st
  /\ bestscore st' = bestscore st
  /\ besthasinf st' = besthasinf st
  /\ sel_latestscores st' = sel_latestscores st
  /\ sel_validscores st' = sel_validscores st.
Proof. by destruct flow. Qed.

Lemma finish_break scip st :
  finish scip (Break, st)
  = (SCIPendStrongbranch scip (sel_log st),
     set_log st (sel_log st ++ [CallEndStrongbranch])).
Proof. reflexivity. Qed.

(** ** The state in which the loop gets to a candidate *)

Lemma reaches_frame scip force lpobjval lpcands st0 k stk :
  k <= length lpcands ->
  reaches scip force lpobjval lpcands st0 k stk ->
  same_lengths st0 stk /\ forall i, k <= i -> same_entry i st0 stk.
Proof.
  intros Hk [Hlen Hfr]%candidate_loop_frame. split; [done|].
  intros i Hi. apply Hfr. right. rewrite length_take. lia.
Qed.

Lemma scored_buffers scip c var v st :
  sel_latestscores (scored scip c var v st)
  = <[c := v_score v]> (sel_latestscores st)
  /\ sel_validscores (scored scip c var v st)
     = if v_downinf v || v_upinf v then sel_validscores st
       else <[c := true]> (sel_validscores st).
Proof.
  unfold scored. cbn. by destruct (probed_buffers scip st var) as [-> ->].
Qed.

Lemma scored_best scip c var v st :
  bestcand (scored scip c var v st) = bestcand st
  /\ bestscore (scored scip c var v st) = bestscore st
  /\ besthasinf (scored scip c var v st) = besthasinf st
  /\ sel_log (scored scip c var v st) = probe_log scip st var.
Proof.
  unfold scored. cbn.
  destruct (probed_best scip st var) as (-> & -> & _ & _ & _ & _ & ->).
  by rewrite probed_log.
Qed.

(** After the pass for candidate [k], entry [k] of the buffers holds the
    score and the validity mark, whichever way the pass is left. *)
Lemma iteration_entry scip force lpobjval k var st v :
  probe_verdict scip lpobjval st var = Some v ->
  k < length (sel_latestscores st) ->
  sel_validscores st !! k = Some false ->
  let st' := (iteration scip force lpobjval k var st).2 in
  sel_latestscores st' !! k = Some (v_score v)
  /\ sel_validscores st' !! k = Some (negb (v_downinf v || v_upinf v)).
Proof.
  intros Hv Hlen Hvalid. cbn zeta.
  rewrite (iteration_of_verdict _ _ _ _ _ _ _ Hv).
  destruct (scored_buffers scip k var v st) as [Hls Hvs].
  assert (sel_latestscores (scored scip k var v st) !! k = Some (v_score v)
          /\ sel_validscores (scored scip k var v st) !! k
             = Some (negb (v_downinf v || v_upinf v))) as Hentry.
  { rewrite Hls, Hvs. split; [by apply list_lookup_insert_eq|].
    destruct (v_downinf v || v_upinf v); [done|].
    apply list_lookup_insert_eq. by apply lookup_lt_Some in Hvalid. }
  by destruct (replaces_best v (scored scip k var v st)).
Qed.

(** What the whole loop leaves at entry [k], in terms of the pass for
    candidate [k]. *)
Lemma candidate_loop_entry scip force lpobjval lpcands st0 k var stk :
  lpcands !! k = Some var ->
  reaches scip force lpobjval lpcands st0 k stk ->
  same_entry k (iteration scip force lpobjval k var stk).2
    (candidate_loop scip force lpobjval lpcands 0 st0).2.
Proof.
  intros Hk Hreach. rewrite (candidate_loop_at _ _ _ _ _ _ _ _ Hk Hreach).
  destruct (iteration scip force lpobjval k var stk) as [[| |rc] st1];
    [|done..].
  cbn [snd].
  destruct (candidate_loop scip force lpobjval (drop (S k) lpcands) (S k) st1)
    as [flow st] eqn:Hrest.
  apply candidate_loop_frame in Hrest as [_ Hfr]. apply Hfr. lia.
Qed.

(** ** A candidate infeasible on both sides *)

Lemma cutoff_candidate_becomes_best scip force lpobjval k var st v :
  probe_verdict scip lpobjval st var = Some v ->
  v_downinf v && v_upinf v = true ->
  besthasinf st = false
  \/ (bestscore st <? SCIPinfinity scip)%float = true ->
  v_score v = SCIPinfinity scip
  /\ iteration scip force lpobjval k var st
     = (if negb force then Break else Continue,
        new_best k v (scored scip k var v st)).
Proof.
  intros Hv Hboth Hbest.
  pose proof (verdict_score _ _ _ _ _ Hv) as Hscore. rewrite Hboth in Hscore.
  split; [done|].
  rewrite (iteration_of_verdict _ _ _ _ _ _ _ Hv).
  destruct (scored_best scip k var v st) as (_ & Hs & Hb & _).
  apply andb_prop in Hboth as [Hd Hu].
  unfold replaces_best. rewrite Hs, Hb, Hscore, Hd, Hu. cbn [orb andb].
  rewrite !andb_true_r.
  destruct Hbest as [->| ->]; cbn [negb orb]; [by rewrite orb_true_r|done].
Qed.

(** Once the best has an infeasibility and the score [SCIPinfinity], the
    rest of the loop keeps it, unless a candidate infeasible on one side
    only scores strictly above [SCIPinfinity]. *)
Lemma cutoff_best_is_kept scip force lpobjval l c st flow st' :
  besthasinf st = true ->
  bestscore st = SCIPinfinity scip ->
  (forall j stj varj vj,
      l !! j = Some varj ->
      candidate_loop scip force lpobjval (take j l) c st = (Continue, stj) ->
      probe_verdict scip lpobjval stj varj = Some vj ->
      xorb (v_downinf vj) (v_upinf vj) = true ->
      (SCIPinfinity scip <? v_score vj)%float = false) ->
  candidate_loop scip force lpobjval l c st = (flow, st') ->
  bestcand st' = bestcand st
  /\ bestscore st' = SCIPinfinity scip
  /\ besthasinf st' = true.
Proof.
  revert c st. induction l as [|var l IH]; intros c st Hinf Hscore Hlater.
  - by intros [= <- <-].
  - cbn [candidate_loop].
    destruct (probe_verdict scip lpobjval st var) as [v|] eqn:Hv.
    + assert (replaces_best v (scored scip c var v st) = false) as Hno.
      { destruct (scored_best scip c var v st) as (_ & Hs & Hb & _).
        unfold replaces_best. rewrite Hs, Hb, Hinf, Hscore. cbn [negb andb].
        rewrite !orb_false_r.
        pose proof (verdict_score _ _ _ _ _ Hv) as Hsc.
        pose proof (Hlater 0 st var v eq_refl eq_refl Hv) as Hone.
        destruct (v_downinf v), (v_upinf v); cbn in *;
          rewrite ?andb_true_r, ?andb_false_r; try done.
        - rewrite Hsc. apply ltb_irrefl.
        - by apply Hone.
        - by apply Hone. }
      rewrite (iteration_of_verdict _ _ _ _ _ _ _ Hv), Hno.
      destruct (scored_best scip c var v st) as (Hc & Hs & Hb & _).
      intros Hrest. rewrite <- Hc.
      apply (IH (S c) (scored scip c var v st)); [congruence|congruence| |done].
      intros j stj varj vj Hj Hrun. apply (Hlater (S j)); [done|].
      cbn [take candidate_loop].
      by rewrite (iteration_of_verdict _ _ _ _ _ _ _ Hv), Hno.
    + destruct (probed_best scip st var) as (Hc & Hs & _ & _ & _ & _ & Hb).
      destruct (iteration_without_verdict scip force _ c _ _ Hv)
        as [->|[rc ->]]; intros [= <- <-]; repeat split; congruence.
Qed.

(** ** C1: what displaces a best that has an infeasibility *)

(** C1, as stated, fails: in scenario S4 with the candidates swapped, the
    best after candidate 0 has an infeasibility and score 5; candidate 1 is
    regular (neither side infeasible) with the strictly higher score 50, and
    it does not displace the best. *)
Lemma C1_regular_does_not_displace :
  besthasinf (scenario_after_first host_S4_swapped true) = true
  /\ bestcand (scenario_after_first host_S4_swapped true) = 0
  /\ probe_verdict host_S4_swapped 0 (scenario_after_first host_S4_swapped true) 2
     = Some verdict_regular
  /\ (bestscore (scenario_after_first host_S4_swapped true)
        <? v_score verdict_regular)%float = true
  /\ bestcand
       (iteration host_S4_swapped true 0 1 2
          (scenario_after_first host_S4_swapped true)).2 = 0
  /\ bestcand (scenario_select host_S4_swapped true).2 = 0.
Proof. vm_compute. repeat split; reflexivity. Qed.

(** C1 (amended): once the best has an infeasibility, a later candidate
    whose probe succeeds displaces it exactly when its score is strictly
    higher than [bestscore] and the candidate itself is infeasible on some
    side; a regular candidate never displaces it. *)
Theorem C1_displaced_only_by_infeasible
    scip force lpobjval c var (st : SelectState) v :
  besthasinf st = true ->
  probe_verdict scip lpobjval st var = Some v ->
  let st' := (iteration scip force lpobjval c var st).2 in
  besthasinf st' = true
  /\ if (bestscore st <? v_score v)%float && (v_downinf v || v_upinf v)
     then bestcand st' = c /\ bestscore st' = v_score v
          /\ bestdown st' = v_down v /\ bestup st' = v_up v
     else bestcand st' = bestcand st /\ bestscore st' = bestscore st
          /\ bestdown st' = bestdown st /\ bestup st' = bestup st.
Proof.
  intros Hinf Hv. cbn zeta. rewrite (iteration_of_verdict _ _ _ _ _ _ _ Hv).
  destruct (probed_best scip st var) as (Hc & Hs & Hd & Hu & _ & _ & Hb).
  unfold replaces_best, scored. cbn [record_score bestscore besthasinf].
  rewrite Hs, Hb, Hinf. cbn [negb andb]. rewrite !orb_false_r.
  destruct ((bestscore st <? v_score v)%float && (v_downinf v || v_upinf v))
    eqn:Hcond.
  - apply andb_prop in Hcond as [_ Hside].
    cbn. rewrite Hside. by repeat split.
  - cbn. by rewrite Hc, Hs, Hd, Hu, Hb.
Qed.

Lemma C1_displaced_only_by_infeasible_witness :
  besthasinf (scenario_after_first host_S4_swapped true) = true
  /\ probe_verdict host_S4_swapped 0
       (scenario_after_first host_S4_swapped true) 2 = Some verdict_regular
  /\ bestcand
       (iteration host_S4_swapped true 0 1 2
          (scenario_after_first host_S4_swapped true)).2 = 0.
Proof.
  assert (besthasinf (scenario_after_first host_S4_swapped true) = true)
    as H1 by reflexivity.
  assert (probe_verdict host_S4_swapped 0
            (scenario_after_first host_S4_swapped true) 2
          = Some verdict_regular) as H2 by (vm_compute; reflexivity).
  split; [exact H1|]. split; [exact H2|].
  pose proof (C1_displaced_only_by_infeasible host_S4_swapped true 0 1 2
                (scenario_after_first host_S4_swapped true) verdict_regular
                H1 H2) as H.
  cbn zeta in H. destruct H as [_ H]. vm_compute in H. tauto.
Defined.

(** ** C2: an infeasible candidate supersedes a best without infeasibility *)

(** C2: if the probe of candidate [c] succeeds with [downinf] or [upinf] and
    the best so far has no infeasibility, then [c] becomes the best,
    whatever its score is, and [besthasinf] holds afterwards. *)
Theorem C2_infeasible_supersedes_regular
    scip force lpobjval c var (st : SelectState) v :
  probe_verdict scip lpobjval st var = Some v ->
  v_downinf v || v_upinf v = true ->
  besthasinf st = false ->
  let st' := (iteration scip force lpobjval c var st).2 in
  bestcand st' = c
  /\ bestscore st' = v_score v
  /\ bestdown st' = v_down v /\ bestup st' = v_up v
  /\ bestdownvalid st' = v_downvalid v /\ bestupvalid st' = v_upvalid v
  /\ besthasinf st' = true.
Proof.
  intros Hv Hside Hinf. cbn zeta.
  rewrite (iteration_of_verdict _ _ _ _ _ _ _ Hv).
  destruct (probed_best scip st var) as (_ & _ & _ & _ & _ & _ & Hb).
  unfold replaces_best, scored. cbn [record_score bestscore besthasinf].
  rewrite Hb, Hinf, Hside. cbn [negb andb]. rewrite orb_true_r.
  cbn. by rewrite Hside.
Qed.

Lemma C2_infeasible_supersedes_regular_witness :
  probe_verdict host_S4 0 (scenario_after_first host_S4 true) 2
  = Some verdict_downinf
  /\ (bestscore (scenario_after_first host_S4 true) = 50)%float
  /\ bestcand (iteration host_S4 true 0 1 2
                 (scenario_after_first host_S4 true)).2 = 1
  /\ besthasinf (iteration host_S4 true 0 1 2
                   (scenario_after_first host_S4 true)).2 = true.
Proof.
  assert (probe_verdict host_S4 0 (scenario_after_first host_S4 true) 2
          = Some verdict_downinf) as H1 by (vm_compute; reflexivity).
  split; [exact H1|]. split; [vm_compute; reflexivity|].
  pose proof (C2_infeasible_supersedes_regular host_S4 true 0 1 2
                (scenario_after_first host_S4 true) verdict_downinf
                H1 eq_refl eq_refl) as H.
  cbn zeta in H. tauto.
Defined.

(** ** C3: leaving the loop at a candidate infeasible on both sides *)

(** C3: the code breaks the claim at a candidate infeasible on both sides
    that comes behind a best whose score already is [SCIPinfinity]
    ([forcestrongbranch] off).  At a node without incumbent, candidate 0 is
    infeasible downwards only and scores [upgain * factor = SCIPinfinity];
    at a node with incumbent and all bounds proved, the same score results
    from the up gain 50 and the branch factor 2e18.  In both cases the loop
    then gets to candidate 1, whose probe reports both sides infeasible.
    Its score [SCIPinfinity] is not strictly greater than the best score,
    so the [if] of line 329 is not entered and the [break] nested in it
    (lines 343-346) is not executed: candidate 2 is probed as well, and the
    best on exit is candidate 0, a variable with one feasible child,
    although candidate 1 proves the node infeasible and rule 1 of the
    header puts such a variable first. *)
Lemma C3_no_break_behind_infinite_best :
  (enters_loop host_no_incumbent [] [1; 2; 3] false
   /\ reaches host_no_incumbent false 0%float [1; 2; 3]
        (scenario_entry host_no_incumbent) 1
        (scenario_after_first host_no_incumbent false)
   /\ probe_verdict host_no_incumbent 0%float
        (scenario_after_first host_no_incumbent false) 2
      = Some verdict_cutoff_inf
   /\ v_downinf verdict_cutoff_inf && v_upinf verdict_cutoff_inf = true
   /\ sel_log (scenario_select host_no_incumbent false).2 = log_three_probes
   /\ bestcand (scenario_select host_no_incumbent false).2 = 0
   /\ bestcand (scenario_select host_no_incumbent false).2 <> 1)
  /\ (enters_loop host_large_factor [] [1; 2; 3] false
      /\ probe_verdict host_large_factor 0%float
           (scenario_entry host_large_factor) 1
         = Some verdict_downinf_large
      /\ reaches host_large_factor false 0%float [1; 2; 3]
           (scenario_entry host_large_factor) 1
           (scenario_after_first host_large_factor false)
      /\ probe_verdict host_large_factor 0%float
           (scenario_after_first host_large_factor false) 2
         = Some verdict_cutoff
      /\ v_downinf verdict_cutoff && v_upinf verdict_cutoff = true
      /\ (scenario_select host_large_factor false).1 = SCIP_OKAY
      /\ sel_log (scenario_select host_large_factor false).2
         = log_three_probes
      /\ bestcand (scenario_select host_large_factor false).2 = 0
      /\ bestscore (scenario_select host_large_factor false).2
         = 1e20%float
      /\ sel_validscores (scenario_select host_large_factor false).2 !! 1
         = Some false).
Proof. vm_compute. repeat split; discriminate. Qed.

(** Where the best recorded so far has no infeasibility or a score strictly
    below [SCIPinfinity], the loop does stop at a candidate infeasible on
    both sides.  With [forcestrongbranch] off, if the loop gets to
    candidate [k], its probe reports both sides infeasible, and the best
    recorded so far is of that kind, then the selection leaves the loop at
    [k]: after the log of that probe comes only the call of
    [SCIPendStrongbranch]; on exit [bestcand = k],
    [bestscore = SCIPinfinity] and [validscores[k]] is [FALSE]. *)
Theorem break_at_cutoff_candidate
    scip log lpcands sol frac nprio ls vs k var stk v :
  enters_loop scip log lpcands false ->
  length vs = length lpcands ->
  lpcands !! k = Some var ->
  reaches scip false (SCIPgetLPObjval scip log) lpcands
    (loop_entry scip log (length lpcands) ls vs) k stk ->
  probe_verdict scip (SCIPgetLPObjval scip log) stk var = Some v ->
  v_downinf v && v_upinf v = true ->
  besthasinf stk = false
  \/ (bestscore stk <? SCIPinfinity scip)%float = true ->
  let out :=
    SCIPselectVarStrongBranchingVanilla scip log lpcands sol frac nprio
      false ls vs in
  out.1 = SCIPendStrongbranch scip (probe_log scip stk var)
  /\ sel_log out.2 = probe_log scip stk var ++ [CallEndStrongbranch]
  /\ bestcand out.2 = k
  /\ bestscore out.2 = SCIPinfinity scip
  /\ besthasinf out.2 = true
  /\ sel_validscores out.2 !! k = Some false.
Proof.
  intros Henter Hvs Hk Hreach Hv Hboth Hbest. cbn zeta.
  pose proof (lookup_lt_Some _ _ _ Hk) as Hlt.
  destruct (cutoff_candidate_becomes_best scip false _ k var stk v
              Hv Hboth Hbest) as [Hscore Hit].
  rewrite (select_enters _ _ _ _ _ _ _ _ _ Henter).
  rewrite (candidate_loop_at _ _ _ _ _ _ _ _ Hk Hreach), Hit.
  cbn [negb]. rewrite finish_break.
  cbn [fst snd set_log new_best sel_log bestcand bestscore besthasinf
       sel_validscores].
  destruct (scored_best scip k var v stk) as (_ & _ & _ & ->).
  destruct (scored_buffers scip k var v stk) as [_ ->].
  apply andb_prop in Hboth as [-> _]. cbn [orb].
  repeat split; try done.
  destruct (loop_entry_spec scip log (length lpcands) ls vs)
    as (_ & _ & _ & _ & _ & _ & Hfill).
  assert (k <= length lpcands) as Hle by lia.
  destruct (reaches_frame _ _ _ _ _ _ _ Hle Hreach) as [_ Hfr].
  destruct (Hfr k ltac:(lia)) as [_ ->]. apply Hfill; lia.
Qed.

Lemma break_at_cutoff_candidate_witness :
  enters_loop host_S3 [] [1; 2; 3] false
  /\ reaches host_S3 false 0%float [1; 2; 3] (scenario_entry host_S3) 1
       (scenario_after_first host_S3 false)
  /\ probe_verdict host_S3 0%float (scenario_after_first host_S3 false) 2
     = Some verdict_cutoff
  /\ besthasinf (scenario_after_first host_S3 false) = false
  /\ sel_log (scenario_select host_S3 false).2 = log_two_probes
  /\ bestcand (scenario_select host_S3 false).2 = 1
  /\ bestscore (scenario_select host_S3 false).2 = 1e20%float
  /\ sel_validscores (scenario_select host_S3 false).2 !! 1 = Some false.
Proof.
  assert (enters_loop host_S3 [] [1; 2; 3] false) as H1 by (by split).
  assert (reaches host_S3 false 0%float [1; 2; 3] (scenario_entry host_S3) 1
            (scenario_after_first host_S3 false)) as H2
    by (vm_compute; reflexivity).
  assert (probe_verdict host_S3 0%float (scenario_after_first host_S3 false) 2
          = Some verdict_cutoff) as H3 by (vm_compute; reflexivity).
  assert (besthasinf (scenario_after_first host_S3 false) = false) as H4
    by reflexivity.
  split; [exact H1|]. split; [exact H2|]. split; [exact H3|].
  split; [exact H4|].
  pose proof (break_at_cutoff_candidate host_S3 [] [1; 2; 3]
                [0.5; 1.5; 2.5]%float [0.5; 0.5; 0.5]%float 3
                [0; 0; 0]%float [false; false; false] 1 2
                (scenario_after_first host_S3 false) verdict_cutoff
                H1 eq_refl eq_refl H2 H3 eq_refl (or_introl H4)) as H.
  cbn zeta in H. destruct H as (_ & Hlog & Hc & Hs & _ & Hv).
  split; [exact Hlog|]. split; [exact Hc|]. split; [exact Hs|exact Hv].
Defined.

(** ** C4: the probe when the solver is being stopped *)

(** C4, as stated, fails: called on a stopped solver with cells whose
    validity flags hold [TRUE], the probe returns [SCIP_OKAY] with [lperror]
    set, but it has stored [FALSE] through [downvalid] and [upvalid]. *)
Lemma C4_valid_flags_are_reset :
  SCIPsolveIsStopped host_stopped [CallGetVarStrongbranchFracVanilla 1 INT_MAX]
  = true
  /\ (SCIPgetVarStrongbranchFracVanilla host_stopped [] 1 INT_MAX cells_valid).1.1
     = SCIP_OKAY
  /\ sb_lperror
       (SCIPgetVarStrongbranchFracVanilla host_stopped [] 1 INT_MAX cells_valid).1.2
     = true
  /\ sb_downvalid
       (SCIPgetVarStrongbranchFracVanilla host_stopped [] 1 INT_MAX cells_valid).1.2
     = Some false
  /\ sb_downvalid
       (SCIPgetVarStrongbranchFracVanilla host_stopped [] 1 INT_MAX cells_valid).1.2
     <> sb_downvalid cells_valid
  /\ sb_upvalid
       (SCIPgetVarStrongbranchFracVanilla host_stopped [] 1 INT_MAX cells_valid).1.2
     <> sb_upvalid cells_valid.
Proof. vm_compute. repeat split; discriminate. Qed.

(** C4 (amended): when the preconditions of the probe hold (stage, column
    variable, column in the LP) and the solver is being stopped, the probe
    returns [SCIP_OKAY] with [lperror] set, leaves [down] and [up]
    untouched, has reset [downvalid] and [upvalid] to [FALSE] where the
    pointer is not NULL, and does not call the LP oracle: the only entry it
    adds to the log is its own. *)
Theorem C4_stopped_probe scip log var itlim cells :
  SCIPcheckStage scip (log ++ [CallGetVarStrongbranchFracVanilla var itlim])
  = SCIP_OKAY ->
  SCIPvarGetStatus scip var = SCIP_VARSTATUS_COLUMN ->
  SCIPcolIsInLP scip var = true ->
  SCIPsolveIsStopped scip (log ++ [CallGetVarStrongbranchFracVanilla var itlim])
  = true ->
  SCIPgetVarStrongbranchFracVanilla scip log var itlim cells
  = (SCIP_OKAY,
     {| sb_down := sb_down cells;
        sb_up := sb_up cells;
        sb_downvalid := store_if_nonnull (sb_downvalid cells) false;
        sb_upvalid := store_if_nonnull (sb_upvalid cells) false;
        sb_lperror := true |},
     log ++ [CallGetVarStrongbranchFracVanilla var itlim]).
Proof.
  intros Hstage Hcol Hlp Hstop. unfold SCIPgetVarStrongbranchFracVanilla.
  cbn zeta. rewrite Hstage, Hcol, Hlp, Hstop.
  rewrite !decide_True by done. reflexivity.
Qed.

Lemma C4_stopped_probe_witness :
  SCIPsolveIsStopped host_stopped [CallGetVarStrongbranchFracVanilla 1 INT_MAX]
  = true
  /\ SCIPgetVarStrongbranchFracVanilla host_stopped [] 1 INT_MAX
       (sb_args host_stopped (scenario_entry host_stopped))
     = (SCIP_OKAY,
        {| sb_down := (-1e20)%float; sb_up := (-1e20)%float;
           sb_downvalid := Some false; sb_upvalid := Some false;
           sb_lperror := true |},
        [CallGetVarStrongbranchFracVanilla 1 INT_MAX]).
Proof.
  split; [reflexivity|].
  exact (C4_stopped_probe host_stopped [] 1 INT_MAX
           (sb_args host_stopped (scenario_entry host_stopped))
           eq_refl eq_refl eq_refl eq_refl).
Defined.

(** ** The allocation of the score buffers *)

Lemma reset_score_buffers_granted scip log d n :
  score_buffers_allocated scip log n ->
  reset_score_buffers scip (log ++ [CallGetLPBranchCands]) d n
  = (SCIP_OKAY,
     {| forcestrongbranch := forcestrongbranch d;
        scoresize := n;
        latestscores := Some (replicate n 0%float);
        validscores := Some (replicate n false) |}).
Proof.
  intros [Hreal Hbool]. unfold reset_score_buffers. cbn zeta.
  rewrite Hreal, Hbool, !decide_True by done.
  by destruct (latestscores d).
Qed.

Lemma reset_score_buffers_okay scip log d n :
  (reset_score_buffers scip log d n).1 = SCIP_OKAY ->
  (reset_score_buffers scip log d n).2
  = {| forcestrongbranch := forcestrongbranch d;
       scoresize := n;
       latestscores := Some (replicate n 0%float);
       validscores := Some (replicate n false) |}.
Proof.
  unfold reset_score_buffers. cbn zeta.
  destruct (decide (SCIPallocBlockMemoryArray scip log sizeof_SCIP_Real n
                    = SCIP_OKAY)); [|done].
  destruct (decide (SCIPallocBlockMemoryArray scip log sizeof_SCIP_Bool n
                    = SCIP_OKAY)); [|done].
  intros _. by destruct (latestscores d).
Qed.

(** ** C5: the result flag of the execute callback *)

(** In scenario S1 (one candidate, [forcestrongbranch] off) the selection
    returns before the loop: nothing is probed, strong-branching mode is never
    entered.  The callback still branches and hands [SCIP_BRANCHED] to the
    host, not [SCIP_DIDNOTRUN]. *)
Lemma C5_short_circuit_still_branches :
  exec_retcode (branchExeclpFullstrong host_S1 [] data_no_force) = SCIP_OKAY
  /\ exec_log (branchExeclpFullstrong host_S1 [] data_no_force)
     = [CallGetLPBranchCands; CallBranchVarVal 7 0.5%float]
  /\ exec_result (branchExeclpFullstrong host_S1 [] data_no_force)
     = SCIP_BRANCHED
  /\ exec_result (branchExeclpFullstrong host_S1 [] data_no_force)
     <> SCIP_DIDNOTRUN.
Proof. vm_compute. repeat split; discriminate. Qed.

(** C5 (amended): the result flag handed to the host is [SCIP_BRANCHED] on
    every normal completion of the callback, whether the selection ran its
    loop or returned before it; it is [SCIP_DIDNOTRUN] exactly when the
    callback returns an error code. *)
Theorem C5_result_flag scip log d :
  exec_result (branchExeclpFullstrong scip log d)
  = if decide (exec_retcode (branchExeclpFullstrong scip log d) = SCIP_OKAY)
    then SCIP_BRANCHED
    else SCIP_DIDNOTRUN.
Proof.
  unfold branchExeclpFullstrong.
  destruct (SCIPgetLPBranchCands scip log) as [rc cands].
  destruct (decide (rc = SCIP_OKAY)) as [->|Hrc]; cbn zeta.
  - destruct (decide (duplicate_candidate_arrays _ _ _ = SCIP_OKAY))
      as [Hdup|Hdup]; [|cbn; by rewrite decide_False].
    destruct (reset_score_buffers _ _ _ _) as [rc0 d0].
    destruct (decide (rc0 = SCIP_OKAY)) as [->|Hrc0].
    + destruct (SCIPselectVarStrongBranchingVanilla _ _ _ _ _ _ _ _ _)
        as [rc' st].
      destruct (decide (rc' = SCIP_OKAY)) as [->|Hrc'].
      * destruct (decide (SCIPbranchVarVal _ _ _ _ = SCIP_OKAY)) as [E|E];
          cbn; [reflexivity|by rewrite decide_False].
      * cbn. by rewrite decide_False.
    + cbn. by rewrite decide_False.
  - cbn. by rewrite decide_False.
Qed.

(** ** C6: one candidate, no forced strong branching *)

(** In scenario S1 the buffers keep the content [branchExeclpFullstrong]
    cleared them to, which is zero and not [-SCIPinfinity]: the loop that
    stores [-SCIPinfinity] comes after the early return of line 252. *)
Lemma C6_buffer_is_zero_not_minus_infinity :
  forcestrongbranch data_no_force = false
  /\ length (tmplpcands (SCIPgetLPBranchCands host_S1 []).2) = 1
  /\ latestscores (exec_data (branchExeclpFullstrong host_S1 [] data_no_force))
     = Some [0%float]
  /\ latestscores (exec_data (branchExeclpFullstrong host_S1 [] data_no_force))
     <> Some [(- SCIPinfinity host_S1)%float].
Proof.
  vm_compute. repeat split. discriminate.
Qed.

(** C6 (amended): with one candidate and [forcestrongbranch] off (the
    memory the callback asks for being granted) the probe is never called:
    the callback only asks for the candidates and requests the branch on
    candidate 0; afterwards the single entry of [latestscores] is 0 and that
    of [validscores] is [FALSE], as cleared on allocation. *)
Theorem C6_single_candidate_no_probe scip log d cands :
  forcestrongbranch d = false ->
  SCIPgetLPBranchCands scip log = (SCIP_OKAY, cands) ->
  length (tmplpcands cands) = 1 ->
  memory_granted scip log 1 ->
  let out := branchExeclpFullstrong scip log d in
  latestscores (exec_data out) = Some [0%float]
  /\ validscores (exec_data out) = Some [false]
  /\ scoresize (exec_data out) = 1
  /\ exec_log out
     = log ++ [CallGetLPBranchCands;
               CallBranchVarVal (default 0 (tmplpcands cands !! 0))
                 (default 0%float (tmplpcandssol cands !! 0))].
Proof.
  intros Hforce Hcands Hone [Hdup Halloc]. unfold branchExeclpFullstrong.
  rewrite Hcands. rewrite decide_True by done. cbn zeta.
  rewrite Hone, Hdup, (reset_score_buffers_granted _ _ _ _ Halloc).
  rewrite !decide_True by done.
  unfold SCIPselectVarStrongBranchingVanilla.
  cbn [forcestrongbranch latestscores validscores buffer_of].
  rewrite Hforce, Hone. cbn [length replicate negb andb orb Nat.eqb].
  rewrite decide_True by done.
  destruct (decide (SCIPbranchVarVal _ _ _ _ = SCIP_OKAY));
    cbn; rewrite <- app_assoc; by repeat split.
Qed.

Lemma C6_single_candidate_no_probe_witness :
  forcestrongbranch data_no_force = false
  /\ SCIPgetLPBranchCands host_S1 [] = (SCIP_OKAY, one_cand)
  /\ length (tmplpcands one_cand) = 1
  /\ memory_granted host_S1 [] 1
  /\ latestscores (exec_data (branchExeclpFullstrong host_S1 [] data_no_force))
     = Some [0%float]
  /\ exec_log (branchExeclpFullstrong host_S1 [] data_no_force)
     = [CallGetLPBranchCands; CallBranchVarVal 7 0.5%float].
Proof.
  assert (memory_granted host_S1 [] 1) as Halloc by (by split).
  pose proof (C6_single_candidate_no_probe host_S1 [] data_no_force one_cand
                eq_refl eq_refl eq_refl Halloc) as H.
  cbn zeta in H. destruct H as (H1 & _ & _ & H2).
  split; [reflexivity|]. split; [reflexivity|]. split; [reflexivity|].
  split; [exact Halloc|]. split; [exact H1|exact H2].
Defined.

(** ** C7: the score written for a candidate *)

(** C7: for every candidate [k] the loop gets to and whose probe succeeds,
    the score follows the case split ([SCIPinfinity] if both sides are
    infeasible, [upgain] times the branch factor if only down is, [downgain]
    times the branch factor if only up is, the host's branch score of the two
    gains otherwise, a gain being the bound minus the LP objective value), it
    is what [latestscores[k]] holds when the selection returns, and
    [validscores[k]] is then [TRUE] exactly in the last case. *)
Theorem C7_score_case_split
    scip log lpcands sol frac nprio force ls vs k var stk v :
  enters_loop scip log lpcands force ->
  length ls = length lpcands ->
  length vs = length lpcands ->
  lpcands !! k = Some var ->
  reaches scip force (SCIPgetLPObjval scip log) lpcands
    (loop_entry scip log (length lpcands) ls vs) k stk ->
  probe_verdict scip (SCIPgetLPObjval scip log) stk var = Some v ->
  let st :=
    (SCIPselectVarStrongBranchingVanilla scip log lpcands sol frac nprio
       force ls vs).2 in
  v_score v
  = (if v_downinf v && v_upinf v then SCIPinfinity scip
     else if v_downinf v
          then (v_upgain v * SCIPvarGetBranchFactor scip var)%float
     else if v_upinf v
          then (v_downgain v * SCIPvarGetBranchFactor scip var)%float
     else SCIPgetBranchScore scip var (v_downgain v) (v_upgain v))
  /\ (v_downgain v = (v_down v - SCIPgetLPObjval scip log)%float
      /\ v_upgain v = (v_up v - SCIPgetLPObjval scip log)%float)
  /\ sel_latestscores st !! k = Some (v_score v)
  /\ sel_validscores st !! k = Some (negb (v_downinf v || v_upinf v)).
Proof.
  intros Henter Hls Hvs Hk Hreach Hv. cbn zeta.
  split; [by eapply verdict_score|].
  split; [by eapply verdict_gains|].
  pose proof (lookup_lt_Some _ _ _ Hk) as Hlt.
  destruct (loop_entry_spec scip log (length lpcands) ls vs)
    as (_ & _ & _ & _ & Hl0 & Hv0 & Hfill).
  assert (k <= length lpcands) as Hle by lia.
  destruct (reaches_frame _ _ _ _ _ _ _ Hle Hreach) as [[Hl1 Hv1] Hfr].
  destruct (Hfr k ltac:(lia)) as [_ Hvk].
  destruct (Hfill k Hlt) as [_ Hfalse].
  assert (k < length (sel_latestscores stk)) as Hlen by lia.
  assert (sel_validscores stk !! k = Some false) as Hinit
    by (rewrite Hvk; apply Hfalse; lia).
  destruct (iteration_entry scip force (SCIPgetLPObjval scip log) k var stk v
              Hv Hlen Hinit) as [Hscore Hvalid].
  destruct (candidate_loop_entry _ _ _ _ _ _ _ _ Hk Hreach) as [E1 E2].
  rewrite (select_enters _ _ _ _ _ _ _ _ _ Henter).
  destruct (candidate_loop _ _ _ _ _ _) as [flow st].
  destruct (finish_state scip flow st) as (_ & _ & _ & -> & ->).
  cbn [snd] in E1, E2. by rewrite E1, E2.
Qed.

Lemma C7_score_case_split_witness :
  enters_loop host_S4 [] [1; 2] true
  /\ reaches host_S4 true 0%float [1; 2] (scenario_entry host_S4) 1
       (scenario_after_first host_S4 true)
  /\ probe_verdict host_S4 0%float (scenario_after_first host_S4 true) 2
     = Some verdict_downinf
  /\ sel_latestscores (scenario_select host_S4 true).2 !! 1 = Some 5%float
  /\ sel_validscores (scenario_select host_S4 true).2 !! 1 = Some false.
Proof.
  assert (enters_loop host_S4 [] [1; 2] true) as H1 by (by split).
  assert (reaches host_S4 true 0%float [1; 2] (scenario_entry host_S4) 1
            (scenario_after_first host_S4 true)) as H2
    by (vm_compute; reflexivity).
  assert (probe_verdict host_S4 0%float (scenario_after_first host_S4 true) 2
          = Some verdict_downinf) as H3 by (vm_compute; reflexivity).
  split; [exact H1|]. split; [exact H2|]. split; [exact H3|].
  pose proof (C7_score_case_split host_S4 [] [1; 2] [0.5; 1.5]%float
                [0.5; 0.5]%float 2 true [0; 0]%float [false; false] 1 2
                (scenario_after_first host_S4 true) verdict_downinf
                H1 eq_refl eq_refl eq_refl H2 H3) as H.
  cbn zeta in H. destruct H as (_ & _ & Hs & Hv). split; [exact Hs|exact Hv].
Defined.

(** ** C8: an LP error in the probe *)

(** C8: if the loop gets to candidate [k] and its probe reports [lperror],
    the selection leaves the loop there: after the log of that probe comes
    only the call of [SCIPendStrongbranch], whose return code is the
    result; the best is the one recorded before candidate [k] (candidate 0
    if [k = 0]), and [latestscores[c]] still holds [-SCIPinfinity] for
    every [c >= k]. *)
Theorem C8_lperror_leaves_loop
    scip log lpcands sol frac nprio force ls vs k var stk :
  enters_loop scip log lpcands force ->
  length ls = length lpcands ->
  lpcands !! k = Some var ->
  reaches scip force (SCIPgetLPObjval scip log) lpcands
    (loop_entry scip log (length lpcands) ls vs) k stk ->
  probe_lperror scip stk var = true ->
  let out :=
    SCIPselectVarStrongBranchingVanilla scip log lpcands sol frac nprio
      force ls vs in
  out.1 = SCIPendStrongbranch scip (probe_log scip stk var)
  /\ sel_log out.2 = probe_log scip stk var ++ [CallEndStrongbranch]
  /\ lperror out.2 = true
  /\ (bestcand out.2 = bestcand stk /\ bestscore out.2 = bestscore stk
      /\ bestdown out.2 = bestdown stk /\ bestup out.2 = bestup stk)
  /\ (k = 0 -> bestcand out.2 = 0)
  /\ forall c, k <= c < length lpcands ->
       sel_latestscores out.2 !! c = Some (- SCIPinfinity scip)%float.
Proof.
  intros Henter Hls Hk Hreach Herr. cbn zeta.
  pose proof (lookup_lt_Some _ _ _ Hk) as Hlt.
  rewrite (select_enters _ _ _ _ _ _ _ _ _ Henter).
  rewrite (candidate_loop_at _ _ _ _ _ _ _ _ Hk Hreach).
  rewrite (iteration_of_lperror _ _ _ _ _ _ Herr), finish_break.
  cbn [fst snd set_log sel_log bestcand bestscore bestdown bestup lperror
       sel_latestscores].
  destruct (probed_best scip stk var) as (Hc & Hs & Hd & Hu & _).
  destruct (probed_buffers scip stk var) as [Hbuf _].
  rewrite probed_log, Hc, Hs, Hd, Hu, Hbuf.
  destruct (loop_entry_spec scip log (length lpcands) ls vs)
    as (Hc0 & _ & _ & _ & Hl0 & _ & Hfill).
  assert (k <= length lpcands) as Hle by lia.
  destruct (reaches_frame _ _ _ _ _ _ _ Hle Hreach) as [_ Hfr].
  repeat split.
  - unfold probe_lperror, probed in *.
    destruct (probe_call scip stk var) as [[rc cells] log'].
    by apply andb_prop in Herr as [_ ?].
  - intros ->. unfold reaches in Hreach. rewrite take_0 in Hreach.
    by injection Hreach as <-.
  - intros c Hc'. destruct (Hfr c ltac:(lia)) as [-> _].
    apply Hfill; lia.
Qed.

Lemma C8_lperror_leaves_loop_witness :
  enters_loop host_S5 [] [1; 2; 3] true
  /\ reaches host_S5 true 0%float [1; 2; 3] (scenario_entry host_S5) 1
       (scenario_after_first host_S5 true)
  /\ probe_lperror host_S5 (scenario_after_first host_S5 true) 2 = true
  /\ sel_log (scenario_select host_S5 true).2 = log_two_probes
  /\ bestcand (scenario_select host_S5 true).2 = 0
  /\ sel_latestscores (scenario_select host_S5 true).2
     = [50; -1e20; -1e20]%float.
Proof.
  assert (enters_loop host_S5 [] [1; 2; 3] true) as H1 by (by split).
  assert (reaches host_S5 true 0%float [1; 2; 3] (scenario_entry host_S5) 1
            (scenario_after_first host_S5 true)) as H2
    by (vm_compute; reflexivity).
  split; [exact H1|]. split; [exact H2|]. split; [reflexivity|].
  pose proof (C8_lperror_leaves_loop host_S5 [] [1; 2; 3]
                [0.5; 1.5; 2.5]%float [0.5; 0.5; 0.5]%float 3 true
                [0; 0; 0]%float [false; false; false] 1 2
                (scenario_after_first host_S5 true)
                H1 eq_refl eq_refl H2 eq_refl) as H.
  cbn zeta in H. destruct H as (_ & Hlog & _ & [Hbest _] & _ & _).
  split; [exact Hlog|]. split; [exact Hbest|]. vm_compute. reflexivity.
Defined.

(** ** C9: the two score buffers and a failing allocation *)

Lemma select_keeps_lengths scip log lpcands sol frac nprio force ls vs :
  let st :=
    (SCIPselectVarStrongBranchingVanilla scip log lpcands sol frac nprio
       force ls vs).2 in
  length (sel_latestscores st) = length ls
  /\ length (sel_validscores st) = length vs.
Proof.
  unfold SCIPselectVarStrongBranchingVanilla. cbn zeta.
  destruct (negb force && (length lpcands =? 1) || SCIPisStopped scip log);
    [done|].
  destruct (decide (SCIPstartStrongbranch scip log false = SCIP_OKAY));
    [|done].
  destruct (loop_entry_spec scip log (length lpcands) ls vs)
    as (_ & _ & _ & _ & Hl0 & Hv0 & _).
  destruct (candidate_loop _ _ _ _ _ _) as [flow st] eqn:Hloop.
  apply candidate_loop_frame in Hloop as [[Hl Hv] _].
  destruct flow; cbn; split; congruence.
Qed.

Lemma exec_sizes scip log d cands :
  SCIPgetLPBranchCands scip log = (SCIP_OKAY, cands) ->
  memory_granted scip log (length (tmplpcands cands)) ->
  let d' := exec_data (branchExeclpFullstrong scip log d) in
  scoresize d' = length (tmplpcands cands)
  /\ length <$> latestscores d' = Some (length (tmplpcands cands))
  /\ length <$> validscores d' = Some (length (tmplpcands cands)).
Proof.
  intros Hcands [Hdup Halloc]. unfold branchExeclpFullstrong. rewrite Hcands.
  rewrite decide_True by done. cbn zeta.
  rewrite Hdup, (reset_score_buffers_granted _ _ _ _ Halloc).
  rewrite !decide_True by done.
  cbn [forcestrongbranch latestscores validscores buffer_of].
  destruct (SCIPselectVarStrongBranchingVanilla _ _ _ _ _ _ _ _ _)
    as [rc st] eqn:Hsel.
  pose proof (select_keeps_lengths scip (log ++ [CallGetLPBranchCands])
                (tmplpcands cands) (tmplpcandssol cands)
                (tmplpcandsfrac cands) (tmpnpriolpcands cands)
                (forcestrongbranch d)
                (replicate (length (tmplpcands cands)) 0%float)
                (replicate (length (tmplpcands cands)) false)) as Hlen.
  cbn zeta in Hlen. rewrite Hsel in Hlen. cbn in Hlen.
  rewrite !length_replicate in Hlen. destruct Hlen as [Hl Hv].
  repeat case_match; cbn; by rewrite Hl, Hv.
Qed.

(** An execution keeps the buffers paired unless the memory manager grants
    the first of them and refuses the second. *)
Lemma exec_buffers_ok scip log d :
  buffers_ok d ->
  (forall cands,
      SCIPgetLPBranchCands scip log = (SCIP_OKAY, cands) ->
      SCIPallocBlockMemoryArray scip (log ++ [CallGetLPBranchCands])
        sizeof_SCIP_Real (length (tmplpcands cands)) = SCIP_OKAY ->
      SCIPallocBlockMemoryArray scip (log ++ [CallGetLPBranchCands])
        sizeof_SCIP_Bool (length (tmplpcands cands)) = SCIP_OKAY) ->
  buffers_ok (exec_data (branchExeclpFullstrong scip log d)).
Proof.
  intros Hd Hsecond.
  destruct (SCIPgetLPBranchCands scip log) as [rc cands] eqn:Hcands.
  destruct (decide (rc = SCIP_OKAY)) as [->|Hrc];
    [|unfold branchExeclpFullstrong; rewrite Hcands; by rewrite decide_False].
  destruct (decide (duplicate_candidate_arrays scip
                      (log ++ [CallGetLPBranchCands])
                      (length (tmplpcands cands)) = SCIP_OKAY))
    as [Hdup|Hdup];
    [|unfold branchExeclpFullstrong; rewrite Hcands;
      rewrite decide_True by done; cbn zeta; by rewrite decide_False].
  destruct (decide (SCIPallocBlockMemoryArray scip
                      (log ++ [CallGetLPBranchCands]) sizeof_SCIP_Real
                      (length (tmplpcands cands)) = SCIP_OKAY))
    as [Hreal|Hreal].
  - destruct (exec_sizes scip log d cands Hcands
                (conj Hdup (conj Hreal (Hsecond cands eq_refl Hreal))))
      as (Hn & Hl & Hv).
    cbn zeta in *. unfold buffers_ok.
    destruct (latestscores _) as [ls|]; [|discriminate].
    destruct (validscores _) as [vs|]; [|discriminate].
    cbn in Hl, Hv. split; congruence.
  - unfold branchExeclpFullstrong, reset_score_buffers. rewrite Hcands.
    rewrite decide_True by done. cbn zeta.
    rewrite (decide_True _ _ Hdup).
    rewrite (decide_False _ _ Hreal). cbn zeta.
    rewrite (decide_False _ _ Hreal). cbn.
    unfold buffers_ok in *.
    by destruct (latestscores d), (validscores d).
Qed.

(** C9: the code breaks the claim when the memory manager grants the first
    score buffer and refuses the second (lines 416-417).  Started on fresh
    rule data with three candidates, the callback returns [SCIP_NOMEMORY]
    after the candidate query and leaves [latestscores] allocated (with the
    three uncleared entries of the block) and [validscores] NULL: a
    reachable state of the rule data in which one buffer is allocated and
    the other is NULL, which the assertion of line 407 excludes at the next
    execution. *)
Lemma C9_failed_allocation_splits_buffers :
  rule_ok (Some SCIPincludeBranchruleFullstrongVanilla)
  /\ SCIPgetLPBranchCands host_no_memory [] = (SCIP_OKAY, three_cands)
  /\ duplicate_candidate_arrays host_no_memory [CallGetLPBranchCands] 3
     = SCIP_OKAY
  /\ SCIPallocBlockMemoryArray host_no_memory [CallGetLPBranchCands]
       sizeof_SCIP_Real 3 = SCIP_OKAY
  /\ SCIPallocBlockMemoryArray host_no_memory [CallGetLPBranchCands]
       sizeof_SCIP_Bool 3 = SCIP_NOMEMORY
  /\ rule_reachable (Some (exec_data (scenario_exec host_no_memory)))
  /\ exec_retcode (scenario_exec host_no_memory) = SCIP_NOMEMORY
  /\ exec_log (scenario_exec host_no_memory) = [CallGetLPBranchCands]
  /\ scoresize (exec_data (scenario_exec host_no_memory)) = 3
  /\ latestscores (exec_data (scenario_exec host_no_memory))
     = Some [7; 7; 7]%float
  /\ validscores (exec_data (scenario_exec host_no_memory)) = None
  /\ ~ rule_ok (Some (exec_data (scenario_exec host_no_memory))).
Proof.
  split; [exact I|]. do 4 (split; [reflexivity|]).
  split; [apply reach_exec, reach_include|].
  vm_compute. repeat split. by intros [].
Qed.

(** ** C10: several candidates infeasible on both sides, force mode *)

(** C10: the code breaks the claim when the first candidate infeasible on
    both sides comes behind a best whose score already is [SCIPinfinity]
    (force mode).  At a node without incumbent, candidate 0 is infeasible
    downwards only and scores [SCIPinfinity]; at a node with incumbent and
    all bounds proved, the same score results from the up gain 50 and the
    branch factor 2e18.  Candidates 1 and 2 are infeasible on both sides.
    The first of them, candidate 1, scores [SCIPinfinity] too, which the
    strict comparison of line 329 does not let displace candidate 0: the
    best on completion is candidate 0, a variable with one feasible child,
    although candidates 1 and 2 prove the node infeasible and rule 1 of the
    header puts the first such variable first.  The defect is the one of
    C3. *)
Lemma C10_first_cutoff_candidate_not_chosen :
  (enters_loop host_no_incumbent [] [1; 2; 3] true
   /\ probe_verdict host_no_incumbent 0%float
        (scenario_entry host_no_incumbent) 1 = Some verdict_downinf_inf
   /\ v_downinf verdict_downinf_inf && v_upinf verdict_downinf_inf = false
   /\ probe_verdict host_no_incumbent 0%float
        (scenario_after_first host_no_incumbent true) 2
      = Some verdict_cutoff_inf
   /\ probe_verdict host_no_incumbent 0%float
        (scenario_after_second host_no_incumbent true) 3
      = Some verdict_cutoff_inf
   /\ v_downinf verdict_cutoff_inf && v_upinf verdict_cutoff_inf = true
   /\ (scenario_select host_no_incumbent true).1 = SCIP_OKAY
   /\ sel_log (scenario_select host_no_incumbent true).2 = log_three_probes
   /\ bestcand (scenario_select host_no_incumbent true).2 = 0
   /\ bestcand (scenario_select host_no_incumbent true).2 <> 1)
  /\ (enters_loop host_large_factor [] [1; 2; 3] true
      /\ probe_verdict host_large_factor 0%float
           (scenario_entry host_large_factor) 1
         = Some verdict_downinf_large
      /\ v_downinf verdict_downinf_large && v_upinf verdict_downinf_large
         = false
      /\ probe_verdict host_large_factor 0%float
           (scenario_after_first host_large_factor true) 2
         = Some verdict_cutoff
      /\ probe_verdict host_large_factor 0%float
           (scenario_after_second host_large_factor true) 3
         = Some verdict_cutoff
      /\ v_downinf verdict_cutoff && v_upinf verdict_cutoff = true
      /\ (scenario_select host_large_factor true).1 = SCIP_OKAY
      /\ sel_latestscores (scenario_select host_large_factor true).2
         = [1e20; 1e20; 1e20]%float
      /\ bestcand (scenario_select host_large_factor true).2 = 0
      /\ exec_log (scenario_exec host_large_factor)
         = CallGetLPBranchCands :: log_three_probes
           ++ [CallBranchVarVal 1 0.5%float]).
Proof. vm_compute. repeat split; discriminate. Qed.

(** Where the best recorded so far has no infeasibility or a score strictly
    below [SCIPinfinity], the first candidate infeasible on both sides is
    kept.  In force mode, let [k] be a candidate the loop gets to whose
    probe reports both sides infeasible while the best recorded so far is
    of that kind.  If no later candidate that is infeasible on one side
    only scores strictly above [SCIPinfinity], then [bestcand = k] on
    completion: later candidates infeasible on both sides score
    [SCIPinfinity], which is not strictly greater, and regular ones never
    displace a best that has an infeasibility. *)
Theorem first_cutoff_candidate_is_kept
    scip log lpcands sol frac nprio ls vs k var stk v :
  enters_loop scip log lpcands true ->
  lpcands !! k = Some var ->
  reaches scip true (SCIPgetLPObjval scip log) lpcands
    (loop_entry scip log (length lpcands) ls vs) k stk ->
  probe_verdict scip (SCIPgetLPObjval scip log) stk var = Some v ->
  v_downinf v && v_upinf v = true ->
  besthasinf stk = false
  \/ (bestscore stk <? SCIPinfinity scip)%float = true ->
  (forall j stj varj vj,
      k < j ->
      lpcands !! j = Some varj ->
      reaches scip true (SCIPgetLPObjval scip log) lpcands
        (loop_entry scip log (length lpcands) ls vs) j stj ->
      probe_verdict scip (SCIPgetLPObjval scip log) stj varj = Some vj ->
      xorb (v_downinf vj) (v_upinf vj) = true ->
      (SCIPinfinity scip <? v_score vj)%float = false) ->
  let out :=
    SCIPselectVarStrongBranchingVanilla scip log lpcands sol frac nprio
      true ls vs in
  bestcand out.2 = k
  /\ bestscore out.2 = SCIPinfinity scip
  /\ besthasinf out.2 = true.
Proof.
  intros Henter Hk Hreach Hv Hboth Hbest Hlater. cbn zeta.
  destruct (cutoff_candidate_becomes_best scip true _ k var stk v
              Hv Hboth Hbest) as [Hscore Hit].
  cbn [negb] in Hit.
  rewrite (select_enters _ _ _ _ _ _ _ _ _ Henter).
  rewrite (candidate_loop_at _ _ _ _ _ _ _ _ Hk Hreach), Hit.
  destruct (candidate_loop scip true (SCIPgetLPObjval scip log)
              (drop (S k) lpcands) (S k) (new_best k v (scored scip k var v stk)))
    as [flow st] eqn:Hrest.
  destruct (finish_state scip flow st) as (-> & -> & -> & _).
  apply cutoff_best_is_kept in Hrest; [done| | |].
  - cbn. apply andb_prop in Hboth as [-> _]. done.
  - done.
  - intros j stj varj vj Hj Hrun Hvj Hone.
    apply (Hlater (S k + j) stj varj vj); [lia| | |done..].
    + by rewrite <- lookup_drop.
    + by eapply reaches_later.
Qed.

Lemma first_cutoff_candidate_is_kept_witness :
  enters_loop host_two_cutoffs [] [1; 2; 3] true
  /\ reaches host_two_cutoffs true 0%float [1; 2; 3]
       (scenario_entry host_two_cutoffs) 1
       (scenario_after_first host_two_cutoffs true)
  /\ probe_verdict host_two_cutoffs 0%float
       (scenario_after_first host_two_cutoffs true) 2 = Some verdict_cutoff
  /\ besthasinf (scenario_after_first host_two_cutoffs true) = false
  /\ sel_latestscores (scenario_select host_two_cutoffs true).2
     = [50; 1e20; 1e20]%float
  /\ bestcand (scenario_select host_two_cutoffs true).2 = 1.
Proof.
  assert (enters_loop host_two_cutoffs [] [1; 2; 3] true) as H1
    by (by split).
  assert (reaches host_two_cutoffs true 0%float [1; 2; 3]
            (scenario_entry host_two_cutoffs) 1
            (scenario_after_first host_two_cutoffs true)) as H2
    by (vm_compute; reflexivity).
  assert (probe_verdict host_two_cutoffs 0%float
            (scenario_after_first host_two_cutoffs true) 2
          = Some verdict_cutoff) as H3 by (vm_compute; reflexivity).
  assert (besthasinf (scenario_after_first host_two_cutoffs true) = false)
    as H4 by reflexivity.
  split; [exact H1|]. split; [exact H2|]. split; [exact H3|].
  split; [exact H4|]. split; [vm_compute; reflexivity|].
  refine (proj1 (first_cutoff_candidate_is_kept host_two_cutoffs []
                   [1; 2; 3] [0.5; 1.5; 2.5]%float [0.5; 0.5; 0.5]%float 3
                   [0; 0; 0]%float [false; false; false] 1 2
                   (scenario_after_first host_two_cutoffs true) verdict_cutoff
                   H1 eq_refl H2 H3 eq_refl (or_introl H4) _)).
  intros j stj varj vj Hj Hlook Hrun Hvj Hone.
  destruct j as [|[|[|j]]]; [lia|lia| |discriminate Hlook].
  injection Hlook as <-. unfold reaches in Hrun.
  vm_compute in Hrun. injection Hrun as <-.
  vm_compute in Hvj. injection Hvj as <-. discriminate Hone.
Defined.

(** * Further properties *)

(** ** The order of floating-point numbers *)

Ltac sf_compare_cases :=
  repeat match goal with
         | H : context [Z.compare ?a ?b] |- _ =>
             destruct (Z.compare_spec a b); subst
         | |- context [Z.compare ?a ?b] =>
             destruct (Z.compare_spec a b); subst
         | H : context [Pos.compare ?a ?b] |- _ =>
             destruct (Pos.compare_spec a b); subst
         | |- context [Pos.compare ?a ?b] =>
             destruct (Pos.compare_spec a b); subst
         end.

Lemma SFltb_trans f1 f2 f3 :
  SFltb f1 f2 = true -> SFltb f2 f3 = true -> SFltb f1 f3 = true.
Proof.
  unfold SFltb, SFcompare.
  destruct f1 as [s1|s1| |s1 m1 e1], f2 as [s2|s2| |s2 m2 e2],
    f3 as [s3|s3| |s3 m3 e3];
    try destruct s1; try destruct s2; try destruct s3;
    cbn; try discriminate; try reflexivity;
    unfold Pos.compare; intros H12 H23;
    fold (Pos.compare m1 m2) in *; fold (Pos.compare m2 m3) in *;
    fold (Pos.compare m1 m3) in *;
    sf_compare_cases; cbn in *; try discriminate; try reflexivity; try lia.
Qed.

Lemma SFleb_not_ltb f1 f2 : SFleb f1 f2 = true -> SFltb f2 f1 = false.
Proof.
  unfold SFleb, SFltb, SFcompare.
  destruct f1 as [s1|s1| |s1 m1 e1], f2 as [s2|s2| |s2 m2 e2];
    try destruct s1; try destruct s2;
    cbn; try discriminate; try reflexivity;
    unfold Pos.compare; intros H12;
    fold (Pos.compare m1 m2) in *; fold (Pos.compare m2 m1) in *;
    sf_compare_cases; cbn in *; try discriminate; try reflexivity; try lia.
Qed.

Lemma ltb_trans (x y z : SCIP_Real) :
  (x <? y)%float = true -> (y <? z)%float = true -> (x <? z)%float = true.
Proof. rewrite !ltb_spec. apply SFltb_trans. Qed.

Lemma leb_not_ltb (x y : SCIP_Real) :
  (x <=? y)%float = true -> (y <? x)%float = false.
Proof. rewrite leb_spec, ltb_spec. apply SFleb_not_ltb. Qed.

(** [MAX(x, y)] is never strictly below [y]. *)
Lemma MAX_not_below (x y : SCIP_Real) : (MAX x y <? y)%float = false.
Proof.
  unfold MAX. destruct (y <=? x)%float eqn:Hle.
  - by apply leb_not_ltb.
  - apply ltb_irrefl.
Qed.

(** ** The probe, path by path *)

Lemma probe_call_path scip log var itlim cells :
  let entry := CallGetVarStrongbranchFracVanilla var itlim in
  (SCIPgetVarStrongbranchFracVanilla scip log var itlim cells).2
  = log ++ entry
        :: (if probe_goes_through scip log var itlim
            then [CallColGetStrongbranch var false itlim] else []).
Proof.
  unfold SCIPgetVarStrongbranchFracVanilla, probe_goes_through. cbn zeta.
  destruct (decide (SCIPcheckStage scip _ = SCIP_OKAY)) as [Hs|Hs];
    [rewrite bool_decide_eq_true_2 by done
    |rewrite bool_decide_eq_false_2 by done; reflexivity].
  destruct (decide (SCIPvarGetStatus scip var = _)) as [Hc|Hc];
    [rewrite bool_decide_eq_true_2 by done
    |rewrite bool_decide_eq_false_2 by done; reflexivity].
  destruct (SCIPcolIsInLP scip var); [|reflexivity].
  destruct (SCIPsolveIsStopped scip _); [reflexivity|].
  destruct (SCIPcolGetStrongbranch scip _ var false itlim) as [rc r].
  cbn. by rewrite <- app_assoc.
Qed.

Lemma probe_log_path scip st var :
  probe_log scip st var
  = sel_log st ++ CallGetVarStrongbranchFracVanilla var INT_MAX
      :: (if probe_goes_through scip (sel_log st) var INT_MAX
          then [CallColGetStrongbranch var false INT_MAX] else []).
Proof. apply probe_call_path. Qed.

(** ** One pass of the loop body, all outcomes *)

Lemma iteration_cases scip force lpobjval c var st flow st' :
  iteration scip force lpobjval c var st = (flow, st') ->
  (probe_verdict scip lpobjval st var = None
   /\ flow <> Continue /\ st' = probed scip st var)
  \/ (exists v,
        probe_verdict scip lpobjval st var = Some v
        /\ ((replaces_best v (scored scip c var v st) = false
             /\ flow = Continue /\ st' = scored scip c var v st)
            \/ (replaces_best v (scored scip c var v st) = true
                /\ (flow = Continue \/ flow = Break)
                /\ st' = new_best c v (scored scip c var v st)))).
Proof.
  intros Hit. destruct (probe_verdict scip lpobjval st var) as [v|] eqn:Hv.
  - rewrite (iteration_of_verdict _ _ _ _ _ _ _ Hv) in Hit. right. exists v.
    split; [done|].
    destruct (replaces_best v (scored scip c var v st)).
    + right. split; [done|].
      destruct (negb force && v_downinf v && v_upinf v);
        injection Hit as <- <-; split; auto.
    + injection Hit as <- <-. by left.
  - left. split; [done|].
    destruct (iteration_without_verdict scip force _ c _ _ Hv)
      as [E|[rc E]]; rewrite E in Hit; injection Hit as <- <-; by split.
Qed.

Lemma iteration_log scip force lpobjval c var st flow st' :
  iteration scip force lpobjval c var st = (flow, st') ->
  sel_log st' = probe_log scip st var.
Proof.
  intros [(_ & _ & ->)|(v & _ & [(_ & _ & ->)|(_ & _ & ->)])]%iteration_cases.
  - apply probed_log.
  - by destruct (scored_best scip c var v st) as (_ & _ & _ & ->).
  - change (sel_log (scored scip c var v st) = probe_log scip st var).
    by destruct (scored_best scip c var v st) as (_ & _ & _ & ->).
Qed.

(** ** Invariants of the loop *)

(** A property of the loop counter and state that every pass keeps is kept
    by the loop. *)
Lemma candidate_loop_invariant scip force lpobjval n
    (I : nat -> SelectState -> Prop) :
  (forall c var st flow st',
      c < n -> I c st ->
      iteration scip force lpobjval c var st = (flow, st') -> I (S c) st') ->
  forall l c st flow st',
    c + length l = n -> I c st ->
    candidate_loop scip force lpobjval l c st = (flow, st') ->
    exists c', c <= c' <= n /\ I c' st'.
Proof.
  intros Hstep l. induction l as [|var l IH]; intros c st flow st' Hn HI.
  - intros [= <- <-]. exists c. cbn in Hn. split; [lia|done].
  - cbn [candidate_loop length] in *.
    destruct (iteration scip force lpobjval c var st) as [f st1] eqn:Hit.
    assert (I (S c) st1) as HI1 by (eapply Hstep; [lia|done..]).
    destruct f.
    + intros Hrest.
      destruct (IH (S c) st1 flow st' ltac:(lia) HI1 Hrest) as (c' & ? & ?).
      exists c'. split; [lia|done].
    + intros [= <- <-]. exists (S c). split; [lia|done].
    + intros [= <- <-]. exists (S c). split; [lia|done].
Qed.

(** A relation between the state and the verdict of a candidate that holds
    after the candidate's pass and that every later pass keeps, holds on
    exit for every candidate the loop got to. *)
Lemma candidate_loop_verdicts scip force lpobjval
    (R : SelectState -> Verdict -> Prop) :
  (forall c var st flow st' v,
      probe_verdict scip lpobjval st var = Some v ->
      iteration scip force lpobjval c var st = (flow, st') -> R st' v) ->
  (forall c var st flow st' v0,
      R st v0 ->
      iteration scip force lpobjval c var st = (flow, st') -> R st' v0) ->
  forall l c st flow st',
    candidate_loop scip force lpobjval l c st = (flow, st') ->
    (forall v0, R st v0 -> R st' v0)
    /\ forall j stj varj vj,
         l !! j = Some varj ->
         candidate_loop scip force lpobjval (take j l) c st = (Continue, stj) ->
         probe_verdict scip lpobjval stj varj = Some vj ->
         R st' vj.
Proof.
  intros Hnew Hold l. induction l as [|var l IH]; intros c st flow st'.
  - intros [= <- <-]. split; [done|]. intros j ? ? ? Hj. discriminate Hj.
  - cbn [candidate_loop].
    destruct (iteration scip force lpobjval c var st) as [f st1] eqn:Hit.
    intros Hrest.
    assert ((forall v0, R st1 v0 -> R st' v0)
            /\ forall j stj varj vj,
                 l !! j = Some varj ->
                 f = Continue ->
                 candidate_loop scip force lpobjval (take j l) (S c) st1
                 = (Continue, stj) ->
                 probe_verdict scip lpobjval stj varj = Some vj ->
                 R st' vj) as [Hkeep Hlater].
    { destruct f.
      - destruct (IH _ _ _ _ Hrest) as [H1 H2]. split; [done|].
        intros; by eapply H2.
      - injection Hrest as <- <-. by split.
      - injection Hrest as <- <-. by split. }
    split.
    + intros v0 H0. apply Hkeep. by eapply Hold.
    + intros [|j] stj varj vj Hj Hrun Hvj.
      * cbn in Hj, Hrun. injection Hj as <-. injection Hrun as <-.
        apply Hkeep. by eapply Hnew.
      * cbn [take candidate_loop] in Hrun. rewrite Hit in Hrun.
        destruct f; [|discriminate..]. by eapply Hlater.
Qed.

(** ** The shape of the log *)

Lemma probe_entries_app log1 log2 :
  probe_entries (log1 ++ log2) = probe_entries log1 ++ probe_entries log2.
Proof. apply omap_app. Qed.

Lemma candidate_loop_log scip force lpobjval l c st flow st' :
  candidate_loop scip force lpobjval l c st = (flow, st') ->
  exists m tail,
    m <= length l
    /\ (flow = Continue -> m = length l)
    /\ sel_log st' = sel_log st ++ tail
    /\ probe_entries tail = take m l
    /\ forallb selection_call tail = true.
Proof.
  revert c st. induction l as [|var l IH]; intros c st.
  - intros [= <- <-]. exists 0, []. by rewrite app_nil_r.
  - cbn [candidate_loop].
    destruct (iteration scip force lpobjval c var st) as [f st1] eqn:Hit.
    pose proof (iteration_log _ _ _ _ _ _ _ _ Hit) as Hlog.
    rewrite probe_log_path in Hlog.
    set (tail1 := CallGetVarStrongbranchFracVanilla var INT_MAX
                    :: (if probe_goes_through scip (sel_log st) var INT_MAX
                        then [CallColGetStrongbranch var false INT_MAX]
                        else [])) in *.
    assert (probe_entries tail1 = [var] /\ forallb selection_call tail1 = true)
      as [Hp1 Hs1] by (unfold tail1; by destruct (probe_goes_through _ _ _ _)).
    destruct f.
    + intros (m & tail & Hm & Hall & Htail & Hp & Hs)%IH.
      exists (S m), (tail1 ++ tail). split_and!.
      * cbn. lia.
      * intros Hc. cbn. by rewrite Hall.
      * by rewrite Htail, Hlog, <- app_assoc.
      * by rewrite probe_entries_app, Hp1, Hp.
      * by rewrite forallb_app, Hs1, Hs.
    + intros [= <- <-]. exists 1, tail1.
      split_and!; [cbn; lia|done|done|by rewrite Hp1|done].
    + intros [= <- <-]. exists 1, tail1.
      split_and!; [cbn; lia|done|done|by rewrite Hp1|done].
Qed.

(** ** Leaving the selection from inside the loop *)

Lemma select_breaks_at scip log lpcands sol frac nprio force ls vs k var stk st' :
  enters_loop scip log lpcands force ->
  lpcands !! k = Some var ->
  reaches scip force (SCIPgetLPObjval scip log) lpcands
    (loop_entry scip log (length lpcands) ls vs) k stk ->
  iteration scip force (SCIPgetLPObjval scip log) k var stk = (Break, st') ->
  SCIPselectVarStrongBranchingVanilla scip log lpcands sol frac nprio force
    ls vs
  = (SCIPendStrongbranch scip (sel_log st'),
     set_log st' (sel_log st' ++ [CallEndStrongbranch])).
Proof.
  intros Henter Hk Hreach Hit.
  rewrite (select_enters _ _ _ _ _ _ _ _ _ Henter).
  by rewrite (candidate_loop_at _ _ _ _ _ _ _ _ Hk Hreach), Hit.
Qed.

Lemma select_returns_at scip log lpcands sol frac nprio force ls vs k var stk
    rc st' :
  enters_loop scip log lpcands force ->
  lpcands !! k = Some var ->
  reaches scip force (SCIPgetLPObjval scip log) lpcands
    (loop_entry scip log (length lpcands) ls vs) k stk ->
  iteration scip force (SCIPgetLPObjval scip log) k var stk = (Return rc, st') ->
  SCIPselectVarStrongBranchingVanilla scip log lpcands sol frac nprio force
    ls vs
  = (rc, st').
Proof.
  intros Henter Hk Hreach Hit.
  rewrite (select_enters _ _ _ _ _ _ _ _ _ Henter).
  by rewrite (candidate_loop_at _ _ _ _ _ _ _ _ Hk Hreach), Hit.
Qed.

(** ** The selection, path by path *)

Lemma select_cases scip log lpcands sol frac nprio force ls vs :
  let out :=
    SCIPselectVarStrongBranchingVanilla scip log lpcands sol frac nprio
      force ls vs in
  (~ enters_loop scip log lpcands force
   /\ (out = (SCIP_OKAY, select_init scip log ls vs)
       \/ (SCIPstartStrongbranch scip log false <> SCIP_OKAY
           /\ out = (SCIPstartStrongbranch scip log false,
                     set_log (select_init scip log ls vs)
                       (log ++ [CallStartStrongbranch false])))))
  \/ (enters_loop scip log lpcands force
      /\ out = finish scip
                 (candidate_loop scip force (SCIPgetLPObjval scip log) lpcands
                    0 (loop_entry scip log (length lpcands) ls vs))).
Proof.
  cbn zeta.
  destruct (negb force && (length lpcands =? 1) || SCIPisStopped scip log)
    eqn:Hgo.
  - left. split.
    + intros [Hgo' _]. congruence.
    + left. unfold SCIPselectVarStrongBranchingVanilla. by rewrite Hgo.
  - destruct (decide (SCIPstartStrongbranch scip log false = SCIP_OKAY))
      as [Hstart|Hstart].
    + right. split; [done|]. by apply select_enters.
    + left. split.
      * by intros [_ Hstart'].
      * right. split; [done|].
        unfold SCIPselectVarStrongBranchingVanilla.
        by rewrite Hgo, decide_False.
Qed.

(** ** X1: the probe rejects a variable that is no column of the LP *)

(** X1: if the stage check passes but the variable is not a column
    variable, or its column is not in the current LP, the probe fails with
    [SCIP_INVALIDDATA] without consulting the stop test or the LP oracle;
    [down], [up] and [lperror] keep their content and the validity flags
    have been reset to [FALSE]. *)
Theorem X1_probe_rejects_non_lp_column scip log var itlim cells :
  SCIPcheckStage scip (log ++ [CallGetVarStrongbranchFracVanilla var itlim])
  = SCIP_OKAY ->
  SCIPvarGetStatus scip var <> SCIP_VARSTATUS_COLUMN
  \/ SCIPcolIsInLP scip var = false ->
  SCIPgetVarStrongbranchFracVanilla scip log var itlim cells
  = (SCIP_INVALIDDATA,
     {| sb_down := sb_down cells;
        sb_up := sb_up cells;
        sb_downvalid := store_if_nonnull (sb_downvalid cells) false;
        sb_upvalid := store_if_nonnull (sb_upvalid cells) false;
        sb_lperror := sb_lperror cells |},
     log ++ [CallGetVarStrongbranchFracVanilla var itlim]).
Proof.
  intros Hstage Hbad. unfold SCIPgetVarStrongbranchFracVanilla. cbn zeta.
  rewrite Hstage, decide_True by done.
  destruct (decide (SCIPvarGetStatus scip var = SCIP_VARSTATUS_COLUMN));
    [|done].
  destruct Hbad as [Hbad| ->]; done.
Qed.

Lemma X1_probe_rejects_non_lp_column_witness :
  SCIPvarGetStatus host_loose_var 2 <> SCIP_VARSTATUS_COLUMN
  /\ (SCIPgetVarStrongbranchFracVanilla host_loose_var [] 2 INT_MAX
        cells_valid).1.1 = SCIP_INVALIDDATA
  /\ (SCIPgetVarStrongbranchFracVanilla host_loose_var [] 2 INT_MAX
        cells_valid).2 = [CallGetVarStrongbranchFracVanilla 2 INT_MAX].
Proof.
  assert (SCIPvarGetStatus host_loose_var 2 <> SCIP_VARSTATUS_COLUMN) as H1
    by discriminate.
  split; [exact H1|].
  rewrite (X1_probe_rejects_non_lp_column host_loose_var [] 2 INT_MAX
             cells_valid eq_refl (or_introl H1)).
  split; reflexivity.
Defined.

(** ** X2: when the probe calls the LP oracle *)

(** X2: the probe calls the LP oracle at most once, right after its own
    entry, and exactly when the stage check passes, the variable is a column
    of the current LP and the solver is not being stopped.  It then returns
    what the oracle returns (as a fractional-value call with the caller's
    iteration limit); on every other path [down] and [up] keep their
    content. *)
Theorem X2_probe_oracle_call scip log var itlim cells :
  let entry := CallGetVarStrongbranchFracVanilla var itlim in
  let out := SCIPgetVarStrongbranchFracVanilla scip log var itlim cells in
  out.2
  = log ++ entry
        :: (if probe_goes_through scip log var itlim
            then [CallColGetStrongbranch var false itlim] else [])
  /\ (probe_goes_through scip log var itlim = true ->
      out.1.1
      = (SCIPcolGetStrongbranch scip (log ++ [entry]) var false itlim).1
      /\ sb_down out.1.2
         = res_down
             (SCIPcolGetStrongbranch scip (log ++ [entry]) var false itlim).2
      /\ sb_up out.1.2
         = res_up
             (SCIPcolGetStrongbranch scip (log ++ [entry]) var false itlim).2
      /\ sb_lperror out.1.2
         = res_lperror
             (SCIPcolGetStrongbranch scip (log ++ [entry]) var false itlim).2)
  /\ (probe_goes_through scip log var itlim = false ->
      sb_down out.1.2 = sb_down cells /\ sb_up out.1.2 = sb_up cells).
Proof.
  cbn zeta. split; [apply probe_call_path|].
  unfold SCIPgetVarStrongbranchFracVanilla, probe_goes_through. cbn zeta.
  destruct (decide (SCIPcheckStage scip _ = SCIP_OKAY)) as [Hs|Hs];
    [rewrite bool_decide_eq_true_2 by done
    |rewrite bool_decide_eq_false_2 by done; by split].
  destruct (decide (SCIPvarGetStatus scip var = _)) as [Hc|Hc];
    [rewrite bool_decide_eq_true_2 by done
    |rewrite bool_decide_eq_false_2 by done; by split].
  destruct (SCIPcolIsInLP scip var); [|by split].
  destruct (SCIPsolveIsStopped scip _); [by split|].
  destruct (SCIPcolGetStrongbranch scip _ var false itlim) as [rc r].
  by split.
Qed.

Lemma X2_probe_oracle_call_witness :
  probe_goes_through host_S2 [] 1 INT_MAX = true
  /\ probe_goes_through host_stopped [] 1 INT_MAX = false
  /\ sb_down (SCIPgetVarStrongbranchFracVanilla host_S2 [] 1 INT_MAX
                cells_valid).1.2 = 11%float
  /\ sb_down (SCIPgetVarStrongbranchFracVanilla host_stopped [] 1 INT_MAX
                cells_valid).1.2 = (-1e20)%float.
Proof.
  split; [reflexivity|]. split; [reflexivity|]. split.
  - exact (proj1 (proj2 (proj1 (proj2
             (X2_probe_oracle_call host_S2 [] 1 INT_MAX cells_valid))
             eq_refl))).
  - exact (proj1 (proj2 (proj2
             (X2_probe_oracle_call host_stopped [] 1 INT_MAX cells_valid))
             eq_refl)).
Defined.

(** ** X3: the selection that does not enter its loop *)

(** X3: whenever the selection does not enter its loop (one candidate
    without forced strong branching, solver stopped on entry, or
    [SCIPstartStrongbranch] failing), it reports candidate 0 with both bounds
    and the proved bound at the LP objective value, both bounds marked
    valid and the score [-SCIPinfinity]; the score buffers keep the content
    they were passed with, nothing is probed and [SCIPendStrongbranch] is
    not called.  The return code is [SCIP_OKAY], or the code of the failed
    [SCIPstartStrongbranch]. *)
Theorem X3_selection_without_loop
    scip log lpcands sol frac nprio force ls vs :
  ~ enters_loop scip log lpcands force ->
  let out :=
    SCIPselectVarStrongBranchingVanilla scip log lpcands sol frac nprio
      force ls vs in
  (bestcand out.2 = 0
   /\ bestscore out.2 = (- SCIPinfinity scip)%float
   /\ bestdown out.2 = SCIPgetLPObjval scip log
   /\ bestup out.2 = SCIPgetLPObjval scip log
   /\ provedbound out.2 = SCIPgetLPObjval scip log
   /\ bestdownvalid out.2 = true /\ bestupvalid out.2 = true)
  /\ (sel_latestscores out.2 = ls /\ sel_validscores out.2 = vs)
  /\ ((out.1 = SCIP_OKAY /\ sel_log out.2 = log)
      \/ (out.1 = SCIPstartStrongbranch scip log false
          /\ out.1 <> SCIP_OKAY
          /\ sel_log out.2 = log ++ [CallStartStrongbranch false])).
Proof.
  intros Hno. cbn zeta.
  destruct (select_cases scip log lpcands sol frac nprio force ls vs)
    as [[_ [-> |[Hrc ->]]]|[Hyes _]]; [| |done].
  - split_and!; try done. by left.
  - split_and!; try done. by right.
Qed.

Lemma X3_selection_without_loop_witness :
  ~ enters_loop host_stopped [] [1; 2] true
  /\ ~ enters_loop host_start_fails [] [1; 2; 3] true
  /\ (scenario_select host_stopped true).1 = SCIP_OKAY
  /\ sel_latestscores (scenario_select host_stopped true).2 = [0; 0]%float
  /\ sel_log (scenario_select host_stopped true).2 = []
  /\ (scenario_select host_start_fails true).1 = SCIP_INVALIDCALL
  /\ bestcand (scenario_select host_start_fails true).2 = 0.
Proof.
  assert (~ enters_loop host_stopped [] [1; 2] true) as H1
    by (intros [H _]; discriminate H).
  assert (~ enters_loop host_start_fails [] [1; 2; 3] true) as H2
    by (intros [_ H]; discriminate H).
  split; [exact H1|]. split; [exact H2|].
  pose proof (X3_selection_without_loop host_stopped [] [1; 2]
                [0.5; 1.5]%float [0.5; 0.5]%float 2 true [0; 0]%float
                [false; false] H1) as Ha.
  pose proof (X3_selection_without_loop host_start_fails [] [1; 2; 3]
                [0.5; 1.5; 2.5]%float [0.5; 0.5; 0.5]%float 3 true
                [0; 0; 0]%float [false; false; false] H2) as Hb.
  cbn zeta in Ha, Hb.
  destruct Ha as (_ & [Hls _] & _). destruct Hb as ([Hc _] & _ & _).
  split; [reflexivity|]. split; [exact Hls|]. split; [reflexivity|].
  split; [reflexivity|exact Hc].
Defined.

(** ** X4: the chosen index is an index of the candidate list *)

Lemma iteration_bestcand scip force lpobjval c var st flow st' :
  iteration scip force lpobjval c var st = (flow, st') ->
  bestcand st' = bestcand st \/ bestcand st' = c.
Proof.
  intros [(_ & _ & ->)|(v & _ & [(_ & _ & ->)|(_ & _ & ->)])]%iteration_cases.
  - left. by destruct (probed_best scip st var) as (-> & _).
  - left. by destruct (scored_best scip c var v st) as (-> & _).
  - by right.
Qed.

Lemma select_bestcand_bound scip log lpcands sol frac nprio force ls vs :
  lpcands <> [] ->
  bestcand
    (SCIPselectVarStrongBranchingVanilla scip log lpcands sol frac nprio
       force ls vs).2 < length lpcands.
Proof.
  intros Hne.
  assert (0 < length lpcands) as Hpos by (destruct lpcands; [done|cbn; lia]).
  destruct (select_cases scip log lpcands sol frac nprio force ls vs)
    as [[_ [-> |[_ ->]]]|[_ ->]]; [done..|].
  destruct (candidate_loop _ _ _ _ _ _) as [flow st] eqn:Hloop.
  destruct (finish_state scip flow st) as (-> & _).
  apply (candidate_loop_invariant scip force (SCIPgetLPObjval scip log)
           (length lpcands)
           (fun c st => bestcand st = 0 \/ bestcand st < c)) in Hloop
    as (c' & Hc' & Hbest).
  - lia.
  - intros c var st0 f st1 _ Hinv Hit.
    destruct (iteration_bestcand _ _ _ _ _ _ _ _ Hit) as [-> | ->]; lia.
  - reflexivity.
  - left. by destruct (loop_entry_spec scip log (length lpcands) ls vs).
Qed.

(** X4: for a non-empty candidate list the selection always reports an
    index of the list, [0 <= bestcand < nlpcands], on every path and with
    every return code. *)
Theorem X4_bestcand_in_range scip log lpcands sol frac nprio force ls vs :
  lpcands <> [] ->
  let out :=
    SCIPselectVarStrongBranchingVanilla scip log lpcands sol frac nprio
      force ls vs in
  bestcand out.2 < length lpcands
  /\ is_Some (lpcands !! bestcand out.2).
Proof.
  intros Hne. cbn zeta.
  pose proof (select_bestcand_bound scip log lpcands sol frac nprio force
                ls vs Hne) as Hlt.
  split; [done|]. by apply lookup_lt_is_Some.
Qed.

Lemma X4_bestcand_in_range_witness :
  bestcand (scenario_select host_S2 true).2 < 3
  /\ bestcand (scenario_select host_S2 true).2 = 2.
Proof.
  split; [|reflexivity].
  exact (proj1 (X4_bestcand_in_range host_S2 [] [1; 2; 3]
                  [0.5; 1.5; 2.5]%float [0.5; 0.5; 0.5]%float 3 true
                  [0; 0; 0]%float [false; false; false]
                  ltac:(discriminate))).
Defined.

(** ** X5: the best bounds are never below the LP objective value *)

Lemma verdict_bounds scip lpobjval st var v :
  probe_verdict scip lpobjval st var = Some v ->
  (v_down v <? lpobjval)%float = false /\ (v_up v <? lpobjval)%float = false.
Proof.
  unfold probe_verdict.
  destruct (probe_call scip st var) as [[rc cells] log'].
  destruct (decide (rc = SCIP_OKAY)); [|discriminate].
  destruct (sb_lperror cells); [discriminate|]. intros [= <-].
  split; apply MAX_not_below.
Qed.

Lemma iteration_bounds scip force lpobjval c var st flow st' :
  iteration scip force lpobjval c var st = (flow, st') ->
  (bestdown st <? lpobjval)%float = false
  /\ (bestup st <? lpobjval)%float = false ->
  (bestdown st' <? lpobjval)%float = false
  /\ (bestup st' <? lpobjval)%float = false.
Proof.
  intros [(_ & _ & ->)|(v & Hv & [(_ & _ & ->)|(_ & _ & ->)])]%iteration_cases.
  - by destruct (probed_best scip st var) as (_ & _ & -> & -> & _).
  - unfold scored. cbn.
    by destruct (probed_best scip st var) as (_ & _ & -> & -> & _).
  - intros _. cbn. by eapply verdict_bounds.
Qed.

(** X5: on every return of the selection, [bestdown] and [bestup] are not
    strictly below the LP objective value of the node (the probe's bounds
    are raised to it before they are recorded), and [provedbound] is that
    value. *)
Theorem X5_best_bounds_not_below_lp_objective
    scip log lpcands sol frac nprio force ls vs :
  let out :=
    SCIPselectVarStrongBranchingVanilla scip log lpcands sol frac nprio
      force ls vs in
  (bestdown out.2 <? SCIPgetLPObjval scip log)%float = false
  /\ (bestup out.2 <? SCIPgetLPObjval scip log)%float = false
  /\ provedbound out.2 = SCIPgetLPObjval scip log.
Proof.
  cbn zeta.
  destruct (select_cases scip log lpcands sol frac nprio force ls vs)
    as [[_ [-> |[_ ->]]]|[_ ->]];
    [cbn; by rewrite ltb_irrefl..|].
  destruct (candidate_loop _ _ _ _ _ _) as [flow st] eqn:Hloop.
  assert (bestdown (finish scip (flow, st)).2 = bestdown st
          /\ bestup (finish scip (flow, st)).2 = bestup st
          /\ provedbound (finish scip (flow, st)).2 = provedbound st)
    as (-> & -> & ->) by (by destruct flow).
  apply (candidate_loop_invariant scip force (SCIPgetLPObjval scip log)
           (length lpcands)
           (fun _ st =>
              ((bestdown st <? SCIPgetLPObjval scip log)%float = false
               /\ (bestup st <? SCIPgetLPObjval scip log)%float = false)
              /\ provedbound st = SCIPgetLPObjval scip log)) in Hloop
    as (c' & _ & [[Hd Hu] Hp]).
  - done.
  - intros c var st0 f st1 _ [Hb Hp] Hit. split.
    + by eapply iteration_bounds.
    + apply iteration_cases in Hit
        as [(_ & _ & ->)|(v & _ & [(_ & _ & ->)|(_ & _ & ->)])]; cbn;
        unfold probed; destruct (probe_call scip st0 var) as [[? ?] ?]; done.
  - reflexivity.
  - unfold loop_entry.
    destruct (empty_score_buffer _ _ _ _ _) as [ls' vs']. cbn.
    by rewrite ltb_irrefl.
Qed.

(** ** X6: the candidates are probed in order *)

Lemma select_log_shape scip log lpcands sol frac nprio force ls vs :
  let out :=
    SCIPselectVarStrongBranchingVanilla scip log lpcands sol frac nprio
      force ls vs in
  exists m tail,
    m <= length lpcands
    /\ sel_log out.2 = log ++ tail
    /\ probe_entries tail = take m lpcands
    /\ forallb selection_call tail = true.
Proof.
  cbn zeta.
  destruct (select_cases scip log lpcands sol frac nprio force ls vs)
    as [[_ [-> |[_ ->]]]|[_ ->]].
  - exists 0, []. rewrite app_nil_r, take_0. split_and!; [lia|done..].
  - exists 0, [CallStartStrongbranch false]. rewrite take_0.
    split_and!; [lia|done..].
  - destruct (candidate_loop _ _ _ _ _ _) as [flow st] eqn:Hloop.
    apply candidate_loop_log in Hloop as (m & tail & Hm & _ & Hlog & Hp & Hs).
    destruct (loop_entry_spec scip log (length lpcands) ls vs)
      as (_ & _ & _ & Hlog0 & _).
    rewrite Hlog0, <- app_assoc in Hlog. cbn [app] in Hlog.
    destruct flow.
    + exists m, (CallStartStrongbranch false :: tail ++ [CallEndStrongbranch]).
      cbn [finish snd set_log sel_log]. rewrite Hlog, <- app_assoc.
      split_and!; [done|done| |].
      * cbn. by rewrite probe_entries_app, Hp, app_nil_r.
      * cbn. by rewrite forallb_app, Hs.
    + exists m, (CallStartStrongbranch false :: tail ++ [CallEndStrongbranch]).
      cbn [finish snd set_log sel_log]. rewrite Hlog, <- app_assoc.
      split_and!; [done|done| |].
      * cbn. by rewrite probe_entries_app, Hp, app_nil_r.
      * cbn. by rewrite forallb_app, Hs.
    + exists m, (CallStartStrongbranch false :: tail).
      cbn [finish snd]. rewrite Hlog. by split_and!.
Qed.

(** X6: the variables the selection probes are an initial segment of the
    candidate list, in the order of the list: no candidate is probed twice,
    none is skipped, none is probed before an earlier one. *)
Theorem X6_probes_in_candidate_order
    scip log lpcands sol frac nprio force ls vs :
  exists m,
    m <= length lpcands
    /\ probe_entries
         (sel_log
            (SCIPselectVarStrongBranchingVanilla scip log lpcands sol frac
               nprio force ls vs).2)
       = probe_entries log ++ take m lpcands.
Proof.
  destruct (select_log_shape scip log lpcands sol frac nprio force ls vs)
    as (m & tail & Hm & Hlog & Hp & _).
  exists m. split; [done|]. cbn zeta in Hlog.
  by rewrite Hlog, probe_entries_app, Hp.
Qed.

(** ** X7: the calls the selection makes *)

(** X7: whatever the selection adds to the log is a call that starts strong
    branching without propagation, a probe or an LP oracle call for a
    fractional value with the iteration limit [INT_MAX], or the call that
    ends strong branching.  The selection never enables propagation, never
    asks for the candidates and never requests a branch. *)
Theorem X7_selection_calls scip log lpcands sol frac nprio force ls vs :
  exists tail,
    sel_log
      (SCIPselectVarStrongBranchingVanilla scip log lpcands sol frac nprio
         force ls vs).2 = log ++ tail
    /\ forallb selection_call tail = true.
Proof.
  destruct (select_log_shape scip log lpcands sol frac nprio force ls vs)
    as (m & tail & _ & Hlog & _ & Hs).
  exists tail. by split.
Qed.

(** ** X8: an error code from the probe *)

Lemma iteration_of_error scip force lpobjval c var st :
  (probe_call scip st var).1.1 <> SCIP_OKAY ->
  iteration scip force lpobjval c var st
  = (Return (probe_call scip st var).1.1, probed scip st var).
Proof.
  unfold iteration, probed, probe_call.
  destruct (SCIPgetVarStrongbranchFracVanilla _ _ _ _ _) as [[rc cells] log'].
  cbn [fst]. intros Hrc. by rewrite decide_False.
Qed.

(** X8: if the loop gets to candidate [k] and its probe returns an error
    code, the selection returns that code at once: the log ends with that
    probe, so no later candidate is probed and [SCIPendStrongbranch] is
    not called; the best fields are those recorded before candidate [k],
    and [latestscores[c]] holds [-SCIPinfinity] for every [c >= k]. *)
Theorem X8_probe_error_aborts_selection
    scip log lpcands sol frac nprio force ls vs k var stk :
  enters_loop scip log lpcands force ->
  length ls = length lpcands ->
  lpcands !! k = Some var ->
  reaches scip force (SCIPgetLPObjval scip log) lpcands
    (loop_entry scip log (length lpcands) ls vs) k stk ->
  (probe_call scip stk var).1.1 <> SCIP_OKAY ->
  let out :=
    SCIPselectVarStrongBranchingVanilla scip log lpcands sol frac nprio
      force ls vs in
  out.1 = (probe_call scip stk var).1.1
  /\ sel_log out.2 = probe_log scip stk var
  /\ (bestcand out.2 = bestcand stk /\ bestscore out.2 = bestscore stk
      /\ besthasinf out.2 = besthasinf stk)
  /\ forall c, k <= c < length lpcands ->
       sel_latestscores out.2 !! c = Some (- SCIPinfinity scip)%float.
Proof.
  intros Henter Hls Hk Hreach Hrc. cbn zeta.
  pose proof (lookup_lt_Some _ _ _ Hk) as Hlt.
  rewrite (select_returns_at _ _ _ _ _ _ _ _ _ _ _ _ _ _ Henter Hk Hreach
             (iteration_of_error _ _ _ _ _ _ Hrc)).
  cbn [fst snd].
  destruct (probed_best scip stk var) as (-> & -> & _ & _ & _ & _ & ->).
  destruct (probed_buffers scip stk var) as [-> _].
  rewrite probed_log. split_and!; try done.
  intros c Hc.
  destruct (loop_entry_spec scip log (length lpcands) ls vs)
    as (_ & _ & _ & _ & _ & _ & Hfill).
  assert (k <= length lpcands) as Hle by lia.
  destruct (reaches_frame _ _ _ _ _ _ _ Hle Hreach) as [_ Hfr].
  destruct (Hfr c ltac:(lia)) as [-> _]. apply Hfill; lia.
Qed.

Lemma X8_probe_error_aborts_selection_witness :
  enters_loop host_loose_var [] [1; 2; 3] true
  /\ reaches host_loose_var true 0%float [1; 2; 3]
       (scenario_entry host_loose_var) 1
       (scenario_after_first host_loose_var true)
  /\ (probe_call host_loose_var (scenario_after_first host_loose_var true) 2).1.1
     = SCIP_INVALIDDATA
  /\ (scenario_select host_loose_var true).1 = SCIP_INVALIDDATA
  /\ sel_log (scenario_select host_loose_var true).2
     = [CallStartStrongbranch false;
        CallGetVarStrongbranchFracVanilla 1 INT_MAX;
        CallColGetStrongbranch 1 false INT_MAX;
        CallGetVarStrongbranchFracVanilla 2 INT_MAX].
Proof.
  assert (enters_loop host_loose_var [] [1; 2; 3] true) as H1 by (by split).
  assert (reaches host_loose_var true 0%float [1; 2; 3]
            (scenario_entry host_loose_var) 1
            (scenario_after_first host_loose_var true)) as H2
    by (vm_compute; reflexivity).
  assert ((probe_call host_loose_var
             (scenario_after_first host_loose_var true) 2).1.1
          <> SCIP_OKAY) as H3 by (vm_compute; discriminate).
  split; [exact H1|]. split; [exact H2|]. split; [reflexivity|].
  pose proof (X8_probe_error_aborts_selection host_loose_var [] [1; 2; 3]
                [0.5; 1.5; 2.5]%float [0.5; 0.5; 0.5]%float 3 true
                [0; 0; 0]%float [false; false; false] 1 2
                (scenario_after_first host_loose_var true)
                H1 eq_refl eq_refl H2 H3) as H.
  cbn zeta in H. destruct H as (Hrc & Hlog & _).
  split; [exact Hrc|exact Hlog].
Defined.

(** ** X9: the solver is stopped while the loop runs *)

(** X9: if the loop gets to candidate [k] and finds the solver being
    stopped (the probe's preconditions holding), the LP oracle is called
    neither for [k] nor for any later candidate: the log is the one before
    candidate [k], the entry of its probe, and the call of
    [SCIPendStrongbranch], whose return code is the result.  The best
    recorded before candidate [k] is kept. *)
Theorem X9_stop_during_loop
    scip log lpcands sol frac nprio force ls vs k var stk :
  enters_loop scip log lpcands force ->
  lpcands !! k = Some var ->
  reaches scip force (SCIPgetLPObjval scip log) lpcands
    (loop_entry scip log (length lpcands) ls vs) k stk ->
  SCIPcheckStage scip
    (sel_log stk ++ [CallGetVarStrongbranchFracVanilla var INT_MAX])
  = SCIP_OKAY ->
  SCIPvarGetStatus scip var = SCIP_VARSTATUS_COLUMN ->
  SCIPcolIsInLP scip var = true ->
  SCIPsolveIsStopped scip
    (sel_log stk ++ [CallGetVarStrongbranchFracVanilla var INT_MAX])
  = true ->
  let out :=
    SCIPselectVarStrongBranchingVanilla scip log lpcands sol frac nprio
      force ls vs in
  out.1
  = SCIPendStrongbranch scip
      (sel_log stk ++ [CallGetVarStrongbranchFracVanilla var INT_MAX])
  /\ sel_log out.2
     = sel_log stk
         ++ [CallGetVarStrongbranchFracVanilla var INT_MAX;
             CallEndStrongbranch]
  /\ bestcand out.2 = bestcand stk
  /\ bestscore out.2 = bestscore stk
  /\ sel_latestscores out.2 = sel_latestscores stk
  /\ sel_validscores out.2 = sel_validscores stk.
Proof.
  intros Henter Hk Hreach Hstage Hcol Hlp Hstop. cbn zeta.
  assert (probe_goes_through scip (sel_log stk) var INT_MAX = false) as Hgo.
  { unfold probe_goes_through. rewrite Hstop. cbn.
    by rewrite andb_false_r. }
  assert (probe_lperror scip stk var = true) as Herr.
  { unfold probe_lperror, probe_call, SCIPgetVarStrongbranchFracVanilla.
    cbn zeta. rewrite Hstage, Hcol, Hlp, Hstop.
    by rewrite !decide_True by done. }
  rewrite (select_breaks_at _ _ _ _ _ _ _ _ _ _ _ _ _ Henter Hk Hreach
             (iteration_of_lperror _ _ _ _ _ _ Herr)).
  cbn [fst snd set_log sel_log bestcand bestscore sel_latestscores
       sel_validscores].
  rewrite probed_log, probe_log_path, Hgo.
  destruct (probed_best scip stk var) as (-> & -> & _).
  destruct (probed_buffers scip stk var) as [-> ->].
  rewrite <- app_assoc. by split_and!.
Qed.

Lemma X9_stop_during_loop_witness :
  enters_loop host_stops_midway [] [1; 2; 3] true
  /\ reaches host_stops_midway true 10%float [1; 2; 3]
       (scenario_entry host_stops_midway) 1
       (scenario_after_first host_stops_midway true)
  /\ sel_log (scenario_select host_stops_midway true).2
     = [CallStartStrongbranch false;
        CallGetVarStrongbranchFracVanilla 1 INT_MAX;
        CallColGetStrongbranch 1 false INT_MAX;
        CallGetVarStrongbranchFracVanilla 2 INT_MAX;
        CallEndStrongbranch]
  /\ bestcand (scenario_select host_stops_midway true).2 = 0.
Proof.
  assert (enters_loop host_stops_midway [] [1; 2; 3] true) as H1
    by (by split).
  assert (reaches host_stops_midway true 10%float [1; 2; 3]
            (scenario_entry host_stops_midway) 1
            (scenario_after_first host_stops_midway true)) as H2
    by (vm_compute; reflexivity).
  split; [exact H1|]. split; [exact H2|].
  pose proof (X9_stop_during_loop host_stops_midway [] [1; 2; 3]
                [0.5; 1.5; 2.5]%float [0.5; 0.5; 0.5]%float 3 true
                [0; 0; 0]%float [false; false; false] 1 2
                (scenario_after_first host_stops_midway true)
                H1 eq_refl H2 eq_refl eq_refl eq_refl eq_refl) as H.
  cbn zeta in H. destruct H as (_ & Hlog & Hc & _).
  split; [exact Hlog|exact Hc].
Defined.

(** ** X10: force mode probes every candidate *)

Lemma forced_loop_runs_through scip lpobjval l c st :
  (forall j stj varj,
      l !! j = Some varj ->
      candidate_loop scip true lpobjval (take j l) c st = (Continue, stj) ->
      is_Some (probe_verdict scip lpobjval stj varj)) ->
  exists st', candidate_loop scip true lpobjval l c st = (Continue, st').
Proof.
  revert c st. induction l as [|var l IH]; intros c st Hall.
  - by eexists.
  - cbn [candidate_loop].
    destruct (Hall 0 st var eq_refl eq_refl) as [v Hv].
    assert (exists st1,
               iteration scip true lpobjval c var st = (Continue, st1))
      as [st1 Hit].
    { rewrite (iteration_of_verdict _ _ _ _ _ _ _ Hv).
      destruct (replaces_best v (scored scip c var v st)); by eexists. }
    rewrite Hit. apply IH. intros j stj varj Hj Hrun.
    apply (Hall (S j) stj varj Hj). cbn [take candidate_loop].
    by rewrite Hit.
Qed.

Lemma loop_prefix_runs scip force lpobjval l c st st' k :
  candidate_loop scip force lpobjval l c st = (Continue, st') ->
  exists stk,
    candidate_loop scip force lpobjval (take k l) c st = (Continue, stk).
Proof.
  intros Hloop. rewrite <- (take_drop k l) in Hloop.
  rewrite candidate_loop_app in Hloop.
  destruct (candidate_loop scip force lpobjval (take k l) c st)
    as [[| |rc] stk]; [by eexists|discriminate..].
Qed.

(** X10: with [forcestrongbranch] on, if no probe reports [lperror] or
    returns an error code, the loop is not left early, not even at a
    candidate infeasible on both sides: it gets to every candidate, every
    candidate is probed, in order, and on return [latestscores[k]] holds
    the score of candidate [k] for every [k]. *)
Theorem X10_force_mode_probes_all
    scip log lpcands sol frac nprio ls vs :
  enters_loop scip log lpcands true ->
  length ls = length lpcands ->
  length vs = length lpcands ->
  (forall j stj varj,
      lpcands !! j = Some varj ->
      reaches scip true (SCIPgetLPObjval scip log) lpcands
        (loop_entry scip log (length lpcands) ls vs) j stj ->
      is_Some (probe_verdict scip (SCIPgetLPObjval scip log) stj varj)) ->
  let out :=
    SCIPselectVarStrongBranchingVanilla scip log lpcands sol frac nprio
      true ls vs in
  probe_entries (sel_log out.2) = probe_entries log ++ lpcands
  /\ forall k var,
       lpcands !! k = Some var ->
       exists stk v,
         reaches scip true (SCIPgetLPObjval scip log) lpcands
           (loop_entry scip log (length lpcands) ls vs) k stk
         /\ probe_verdict scip (SCIPgetLPObjval scip log) stk var = Some v
         /\ sel_latestscores out.2 !! k = Some (v_score v).
Proof.
  intros Henter Hls Hvs Hall. cbn zeta.
  destruct (forced_loop_runs_through scip (SCIPgetLPObjval scip log) lpcands 0
              (loop_entry scip log (length lpcands) ls vs) Hall)
    as [stn Hloop].
  rewrite (select_enters _ _ _ _ _ _ _ _ _ Henter).
  split.
  - rewrite Hloop. cbn [finish snd set_log sel_log].
    destruct (candidate_loop_log _ _ _ _ _ _ _ _ Hloop)
      as (m & tail & _ & Hm & Hlog & Hp & _).
    rewrite (Hm eq_refl), take_ge in Hp by lia.
    destruct (loop_entry_spec scip log (length lpcands) ls vs)
      as (_ & _ & _ & Hlog0 & _).
    rewrite Hlog, Hlog0, !probe_entries_app, Hp. cbn.
    by rewrite !app_nil_r.
  - intros k var Hk.
    destruct (loop_prefix_runs _ _ _ _ _ _ _ k Hloop) as [stk Hreach].
    destruct (Hall k stk var Hk Hreach) as [v Hv].
    exists stk, v. split; [done|]. split; [done|].
    pose proof (lookup_lt_Some _ _ _ Hk) as Hlt.
    destruct (loop_entry_spec scip log (length lpcands) ls vs)
      as (_ & _ & _ & _ & Hl0 & Hv0 & Hfill).
    assert (k <= length lpcands) as Hle by lia.
    destruct (reaches_frame _ _ _ _ _ _ _ Hle Hreach) as [[Hl1 Hv1] Hfr].
    destruct (Hfr k ltac:(lia)) as [_ Hvk].
    destruct (Hfill k Hlt) as [_ Hfalse].
    assert (k < length (sel_latestscores stk)) as Hlen by lia.
    assert (sel_validscores stk !! k = Some false) as Hinit
      by (rewrite Hvk; apply Hfalse; lia).
    destruct (iteration_entry scip true (SCIPgetLPObjval scip log) k var stk
                v Hv Hlen Hinit) as [Hscore _].
    destruct (candidate_loop_entry _ _ _ _ _ _ _ _ Hk Hreach) as [E1 _].
    destruct (candidate_loop _ _ _ _ _ _) as [flow st].
    destruct (finish_state scip flow st) as (_ & _ & _ & -> & _).
    cbn [snd] in E1. by rewrite E1.
Qed.

Lemma X10_force_mode_probes_all_witness :
  enters_loop host_two_cutoffs [] [1; 2; 3] true
  /\ probe_entries (sel_log (scenario_select host_two_cutoffs true).2)
     = [1; 2; 3]
  /\ sel_latestscores (scenario_select host_two_cutoffs true).2
     = [50; 1e20; 1e20]%float.
Proof.
  assert (enters_loop host_two_cutoffs [] [1; 2; 3] true) as H1
    by (by split).
  split; [exact H1|]. split; [|vm_compute; reflexivity].
  refine (proj1 (X10_force_mode_probes_all host_two_cutoffs [] [1; 2; 3]
                   [0.5; 1.5; 2.5]%float [0.5; 0.5; 0.5]%float 3
                   [0; 0; 0]%float [false; false; false]
                   H1 eq_refl eq_refl _)).
  intros j stj varj Hj Hrun. unfold reaches in Hrun.
  destruct j as [|[|[|j]]]; [| | |discriminate Hj];
    injection Hj as <-; vm_compute in Hrun; injection Hrun as <-;
    vm_compute; by eexists.
Defined.

(** ** X11, X12: the best dominates its class *)

(** The relation kept between the best and every candidate seen: a
    candidate with an infeasible side forces a best with an infeasibility,
    and a candidate of the same class as the best does not score strictly
    above it. *)
Lemma best_dominates_step scip force lpobjval c var st flow st' :
  iteration scip force lpobjval c var st = (flow, st') ->
  (forall v,
      probe_verdict scip lpobjval st var = Some v ->
      (infeasible_side v = true -> besthasinf st' = true)
      /\ (infeasible_side v = besthasinf st' ->
          (bestscore st' <? v_score v)%float = false))
  /\ (forall v0,
        (infeasible_side v0 = true -> besthasinf st = true)
        /\ (infeasible_side v0 = besthasinf st ->
            (bestscore st <? v_score v0)%float = false) ->
        (infeasible_side v0 = true -> besthasinf st' = true)
        /\ (infeasible_side v0 = besthasinf st' ->
            (bestscore st' <? v_score v0)%float = false)).
Proof.
  intros Hit. unfold infeasible_side.
  apply iteration_cases in Hit
    as [(Hnone & _ & ->)|(v & Hv & [(Hno & _ & ->)|(Hyes & _ & ->)])].
  - destruct (probed_best scip st var) as (_ & -> & _ & _ & _ & _ & ->).
    split; [|done]. intros v Hv. congruence.
  - destruct (scored_best scip c var v st) as (_ & Hs & Hb & _).
    unfold replaces_best in Hno. rewrite Hs, Hb in Hno. rewrite Hs, Hb.
    split; [|done]. intros v' Hv'. assert (v' = v) as -> by congruence.
    destruct (v_downinf v || v_upinf v), (besthasinf st);
      cbn in Hno; rewrite ?andb_true_r, ?andb_false_r, ?orb_false_r, ?orb_true_r in Hno;
      split; intros; try done.
  - destruct (scored_best scip c var v st) as (_ & Hs & Hb & _).
    unfold replaces_best in Hyes. rewrite Hs, Hb in Hyes.
    cbn [new_best besthasinf bestscore]. rewrite Hb. split.
    + intros v' Hv'. assert (v' = v) as -> by congruence.
      split; [by intros ->|]. intros _. apply ltb_irrefl.
    + intros v0 [H1 H2].
      destruct (v_downinf v || v_upinf v) eqn:Hside,
        (besthasinf st) eqn:Hinf;
        cbn in Hyes; rewrite ?andb_true_r, ?andb_false_r, ?orb_false_r, ?orb_true_r in Hyes.
      * split; [done|]. intros H0.
        destruct (v_score v <? v_score v0)%float eqn:Hlt; [|done].
        rewrite <- (H2 H0). symmetry. by eapply ltb_trans.
      * split; [done|]. intros H0. by specialize (H1 H0).
      * done.
      * split; [done|]. intros H0.
        destruct (v_score v <? v_score v0)%float eqn:Hlt; [|done].
        rewrite <- (H2 H0). symmetry. by eapply ltb_trans.
Qed.

Lemma best_dominates scip log lpcands sol frac nprio force ls vs k var stk v :
  enters_loop scip log lpcands force ->
  lpcands !! k = Some var ->
  reaches scip force (SCIPgetLPObjval scip log) lpcands
    (loop_entry scip log (length lpcands) ls vs) k stk ->
  probe_verdict scip (SCIPgetLPObjval scip log) stk var = Some v ->
  let out :=
    SCIPselectVarStrongBranchingVanilla scip log lpcands sol frac nprio
      force ls vs in
  (infeasible_side v = true -> besthasinf out.2 = true)
  /\ (infeasible_side v = besthasinf out.2 ->
      (bestscore out.2 <? v_score v)%float = false).
Proof.
  intros Henter Hk Hreach Hv. cbn zeta.
  rewrite (select_enters _ _ _ _ _ _ _ _ _ Henter).
  destruct (candidate_loop _ _ _ _ _ _) as [flow st] eqn:Hloop.
  destruct (finish_state scip flow st) as (_ & -> & -> & _).
  apply (candidate_loop_verdicts scip force (SCIPgetLPObjval scip log)
           (fun st v =>
              (infeasible_side v = true -> besthasinf st = true)
              /\ (infeasible_side v = besthasinf st ->
                  (bestscore st <? v_score v)%float = false))) in Hloop
    as [_ Hall].
  - by eapply Hall.
  - intros c var0 st0 f st1 v0 Hv0 Hit.
    by apply (proj1 (best_dominates_step _ _ _ _ _ _ _ _ Hit)).
  - intros c var0 st0 f st1 v0 H0 Hit.
    by apply (proj2 (best_dominates_step _ _ _ _ _ _ _ _ Hit)).
Qed.

(** X11: if the loop gets to a candidate whose probe shows an infeasible
    side, the best the selection reports has an infeasibility
    ([besthasinf]): no regular candidate is preferred to a candidate with an
    infeasible side, whatever the scores. *)
Theorem X11_infeasible_side_takes_precedence
    scip log lpcands sol frac nprio force ls vs k var stk v :
  enters_loop scip log lpcands force ->
  lpcands !! k = Some var ->
  reaches scip force (SCIPgetLPObjval scip log) lpcands
    (loop_entry scip log (length lpcands) ls vs) k stk ->
  probe_verdict scip (SCIPgetLPObjval scip log) stk var = Some v ->
  infeasible_side v = true ->
  besthasinf
    (SCIPselectVarStrongBranchingVanilla scip log lpcands sol frac nprio
       force ls vs).2 = true.
Proof.
  intros Henter Hk Hreach Hv Hside.
  by apply (best_dominates scip log lpcands sol frac nprio force ls vs
              k var stk v Henter Hk Hreach Hv).
Qed.

Lemma X11_infeasible_side_takes_precedence_witness :
  enters_loop host_S4 [] [1; 2] true
  /\ reaches host_S4 true 0%float [1; 2] (scenario_entry host_S4) 1
       (scenario_after_first host_S4 true)
  /\ probe_verdict host_S4 0%float (scenario_after_first host_S4 true) 2
     = Some verdict_downinf
  /\ besthasinf (scenario_select host_S4 true).2 = true.
Proof.
  assert (enters_loop host_S4 [] [1; 2] true) as H1 by (by split).
  assert (reaches host_S4 true 0%float [1; 2] (scenario_entry host_S4) 1
            (scenario_after_first host_S4 true)) as H2
    by (vm_compute; reflexivity).
  assert (probe_verdict host_S4 0%float (scenario_after_first host_S4 true) 2
          = Some verdict_downinf) as H3 by (vm_compute; reflexivity).
  split; [exact H1|]. split; [exact H2|]. split; [exact H3|].
  exact (X11_infeasible_side_takes_precedence host_S4 [] [1; 2]
           [0.5; 1.5]%float [0.5; 0.5]%float 2 true [0; 0]%float
           [false; false] 1 2 (scenario_after_first host_S4 true)
           verdict_downinf H1 eq_refl H2 H3 eq_refl).
Defined.

(** X12: on return, no candidate the loop got to that is of the same class
    as the best (with an infeasible side if the best has an infeasibility,
    regular otherwise) has a score strictly above [bestscore]. *)
Theorem X12_best_score_is_maximal_in_class
    scip log lpcands sol frac nprio force ls vs k var stk v :
  enters_loop scip log lpcands force ->
  lpcands !! k = Some var ->
  reaches scip force (SCIPgetLPObjval scip log) lpcands
    (loop_entry scip log (length lpcands) ls vs) k stk ->
  probe_verdict scip (SCIPgetLPObjval scip log) stk var = Some v ->
  let out :=
    SCIPselectVarStrongBranchingVanilla scip log lpcands sol frac nprio
      force ls vs in
  infeasible_side v = besthasinf out.2 ->
  (bestscore out.2 <? v_score v)%float = false.
Proof.
  intros Henter Hk Hreach Hv. cbn zeta.
  by apply (best_dominates scip log lpcands sol frac nprio force ls vs
              k var stk v Henter Hk Hreach Hv).
Qed.

Lemma X12_best_score_is_maximal_in_class_witness :
  enters_loop host_S2 [] [1; 2; 3] true
  /\ reaches host_S2 true 10%float [1; 2; 3] (scenario_entry host_S2) 1
       (scenario_after_first host_S2 true)
  /\ v_score <$> probe_verdict host_S2 10%float
                   (scenario_after_first host_S2 true) 2 = Some 2%float
  /\ bestscore (scenario_select host_S2 true).2 = 10.5%float
  /\ (bestscore (scenario_select host_S2 true).2 <? 2)%float = false.
Proof.
  assert (enters_loop host_S2 [] [1; 2; 3] true) as H1 by (by split).
  assert (reaches host_S2 true 10%float [1; 2; 3] (scenario_entry host_S2) 1
            (scenario_after_first host_S2 true)) as H2
    by (vm_compute; reflexivity).
  split; [exact H1|]. split; [exact H2|].
  split; [vm_compute; reflexivity|]. split; [vm_compute; reflexivity|].
  destruct (probe_verdict host_S2 10%float
              (scenario_after_first host_S2 true) 2) as [v|] eqn:Hv;
    [|vm_compute in Hv; discriminate Hv].
  pose proof (X12_best_score_is_maximal_in_class host_S2 [] [1; 2; 3]
                [0.5; 1.5; 2.5]%float [0.5; 0.5; 0.5]%float 3 true
                [0; 0; 0]%float [false; false; false] 1 2
                (scenario_after_first host_S2 true) v H1 eq_refl H2 Hv) as H.
  cbn zeta in H. vm_compute in Hv. injection Hv as <-.
  exact (H eq_refl).
Defined.

(** ** X13: the best fields agree with the score trace *)

Lemma iteration_consistent scip force lpobjval n c var st flow st' :
  c < n ->
  (length (sel_latestscores st) = n /\ length (sel_validscores st) = n)
  /\ (forall i, c <= i < n -> sel_validscores st !! i = Some false)
  /\ ((bestcand st = 0 /\ bestscore st = (- SCIPinfinity scip)%float
       /\ besthasinf st = false)
      \/ (bestcand st < c
          /\ sel_latestscores st !! bestcand st = Some (bestscore st)
          /\ sel_validscores st !! bestcand st
             = Some (negb (besthasinf st)))) ->
  iteration scip force lpobjval c var st = (flow, st') ->
  (length (sel_latestscores st') = n /\ length (sel_validscores st') = n)
  /\ (forall i, S c <= i < n -> sel_validscores st' !! i = Some false)
  /\ ((bestcand st' = 0 /\ bestscore st' = (- SCIPinfinity scip)%float
       /\ besthasinf st' = false)
      \/ (bestcand st' < S c
          /\ sel_latestscores st' !! bestcand st' = Some (bestscore st')
          /\ sel_validscores st' !! bestcand st'
             = Some (negb (besthasinf st')))).
Proof.
  intros Hc ([Hl Hv] & Hfresh & Hbest) Hit.
  destruct (iteration_frame _ _ _ _ _ _ _ _ Hit) as [[Hl' Hv'] Hfr].
  split; [split; congruence|]. split.
  { intros i Hi. destruct (Hfr i ltac:(lia)) as [_ ->]. apply Hfresh. lia. }
  apply iteration_cases in Hit
    as [(_ & _ & ->)|(v & Hverdict & [(Hno & _ & ->)|(Hyes & _ & ->)])].
  - destruct (probed_best scip st var) as (-> & -> & _ & _ & _ & _ & ->).
    destruct (probed_buffers scip st var) as [-> ->].
    destruct Hbest as [?|(? & ? & ?)]; [by left|right]. split; [lia|done].
  - destruct (scored_best scip c var v st) as (Hbc & Hbs & Hbi & _).
    rewrite Hbc, Hbs, Hbi.
    destruct Hbest as [?|(Hlt & H1 & H2)]; [by left|right].
    destruct (Hfr (bestcand st) ltac:(lia)) as [E1 E2].
    split; [lia|]. by rewrite E1, E2.
  - right. destruct (scored_best scip c var v st) as (_ & Hbs & Hbi & _).
    destruct (scored_buffers scip c var v st) as [Els Evs].
    cbn [new_best bestcand bestscore besthasinf sel_latestscores
         sel_validscores].
    rewrite Els, Evs, Hbi. split; [lia|]. split.
    + apply list_lookup_insert_eq. lia.
    + unfold replaces_best in Hyes. rewrite Hbs, Hbi in Hyes.
      pose proof (Hfresh c ltac:(lia)) as Hfalse.
      destruct (v_downinf v || v_upinf v); [done|].
      rewrite list_lookup_insert_eq by lia.
      destruct (besthasinf st); [|done].
      cbn in Hyes. by rewrite andb_false_r in Hyes.
Qed.

(** X13: after a selection that entered its loop (buffers of length
    [nlpcands]), either no candidate has replaced the initial best
    ([bestcand = 0], [bestscore = -SCIPinfinity], no infeasibility), or
    [bestscore] is the score recorded for [bestcand] in [latestscores] and
    [besthasinf] is the negation of that candidate's [validscores] mark. *)
Theorem X13_best_agrees_with_trace
    scip log lpcands sol frac nprio force ls vs :
  enters_loop scip log lpcands force ->
  length ls = length lpcands ->
  length vs = length lpcands ->
  let out :=
    SCIPselectVarStrongBranchingVanilla scip log lpcands sol frac nprio
      force ls vs in
  (bestcand out.2 = 0 /\ bestscore out.2 = (- SCIPinfinity scip)%float
   /\ besthasinf out.2 = false)
  \/ (sel_latestscores out.2 !! bestcand out.2 = Some (bestscore out.2)
      /\ sel_validscores out.2 !! bestcand out.2
         = Some (negb (besthasinf out.2))).
Proof.
  intros Henter Hls Hvs. cbn zeta.
  rewrite (select_enters _ _ _ _ _ _ _ _ _ Henter).
  destruct (candidate_loop _ _ _ _ _ _) as [flow st] eqn:Hloop.
  destruct (finish_state scip flow st) as (-> & -> & -> & -> & ->).
  destruct (loop_entry_spec scip log (length lpcands) ls vs)
    as (Hc0 & Hs0 & Hi0 & _ & Hl0 & Hv0 & Hfill).
  apply (candidate_loop_invariant scip force (SCIPgetLPObjval scip log)
           (length lpcands)
           (fun c st =>
              (length (sel_latestscores st) = length lpcands
               /\ length (sel_validscores st) = length lpcands)
              /\ (forall i, c <= i < length lpcands ->
                    sel_validscores st !! i = Some false)
              /\ ((bestcand st = 0
                   /\ bestscore st = (- SCIPinfinity scip)%float
                   /\ besthasinf st = false)
                  \/ (bestcand st < c
                      /\ sel_latestscores st !! bestcand st
                         = Some (bestscore st)
                      /\ sel_validscores st !! bestcand st
                         = Some (negb (besthasinf st)))))) in Hloop
    as (c' & _ & _ & _ & [?|(_ & ? & ?)]); [by left|by right| | |].
  - intros c var st0 f st1 Hc Hinv Hit.
    by eapply iteration_consistent.
  - reflexivity.
  - split; [split; congruence|]. split; [|by left].
    intros i Hi. apply Hfill; lia.
Qed.

Lemma X13_best_agrees_with_trace_witness :
  enters_loop host_S4 [] [1; 2] true
  /\ bestcand (scenario_select host_S4 true).2 = 1
  /\ sel_latestscores (scenario_select host_S4 true).2 !! 1
     = Some (bestscore (scenario_select host_S4 true).2)
  /\ sel_validscores (scenario_select host_S4 true).2 !! 1
     = Some (negb (besthasinf (scenario_select host_S4 true).2)).
Proof.
  assert (enters_loop host_S4 [] [1; 2] true) as H1 by (by split).
  split; [exact H1|]. split; [reflexivity|].
  destruct (X13_best_agrees_with_trace host_S4 [] [1; 2] [0.5; 1.5]%float
              [0.5; 0.5]%float 2 true [0; 0]%float [false; false]
              H1 eq_refl eq_refl) as [(H & _)|H].
  - vm_compute in H. discriminate H.
  - exact H.
Defined.

(** ** X14, X15: what the callback asks of the host *)

Lemma selection_call_not_branch tail :
  forallb selection_call tail = true -> existsb is_branch_call tail = false.
Proof.
  induction tail as [|call tail IH]; [done|]. cbn.
  intros [Hc Ht]%andb_prop. rewrite (IH Ht).
  by destruct call.
Qed.

Lemma exec_log_shape scip log d :
  let out := branchExeclpFullstrong scip log d in
  let cands := (SCIPgetLPBranchCands scip log).2 in
  exists tail branch,
    exec_log out = log ++ CallGetLPBranchCands :: tail ++ branch
    /\ forallb selection_call tail = true
    /\ ((branch = [] /\ exec_retcode out <> SCIP_OKAY)
        \/ exists k,
             k = bestcand
                   (SCIPselectVarStrongBranchingVanilla scip
                      (log ++ [CallGetLPBranchCands]) (tmplpcands cands)
                      (tmplpcandssol cands) (tmplpcandsfrac cands)
                      (tmpnpriolpcands cands) (forcestrongbranch d)
                      (replicate (length (tmplpcands cands)) 0%float)
                      (replicate (length (tmplpcands cands)) false)).2
             /\ branch
                = [CallBranchVarVal
                     (default 0 (tmplpcands cands !! k))
                     (default 0%float (tmplpcandssol cands !! k))]).
Proof.
  cbn zeta. unfold branchExeclpFullstrong.
  destruct (SCIPgetLPBranchCands scip log) as [rc cands].
  destruct (decide (rc = SCIP_OKAY)) as [->|Hrc]; cbn zeta.
  - destruct (decide (duplicate_candidate_arrays _ _ _ = SCIP_OKAY))
      as [Hdup|Hdup];
      [|exists [], []; cbn; split_and!; [done|done|]; left; by split].
    destruct (reset_score_buffers scip (log ++ [CallGetLPBranchCands]) d
                (length (tmplpcands cands))) as [rc0 d0] eqn:Hreset.
    destruct (decide (rc0 = SCIP_OKAY)) as [->|Hrc0];
      [|exists [], []; cbn; split_and!; [done|done|]; left; by split].
    pose proof (reset_score_buffers_okay scip (log ++ [CallGetLPBranchCands])
                  d (length (tmplpcands cands))) as Hd0.
    rewrite Hreset in Hd0. cbn [fst snd] in Hd0. rewrite (Hd0 eq_refl).
    cbn [forcestrongbranch latestscores validscores buffer_of snd].
    destruct (select_log_shape scip (log ++ [CallGetLPBranchCands])
                (tmplpcands cands) (tmplpcandssol cands)
                (tmplpcandsfrac cands) (tmpnpriolpcands cands)
                (forcestrongbranch d)
                (replicate (length (tmplpcands cands)) 0%float)
                (replicate (length (tmplpcands cands)) false))
      as (m & tail & _ & Hlog & _ & Hs).
    cbn zeta in Hlog.
    destruct (SCIPselectVarStrongBranchingVanilla _ _ _ _ _ _ _ _ _)
      as [rc' st].
    cbn [snd] in Hlog. rewrite <- app_assoc in Hlog. cbn [app] in Hlog.
    destruct (decide (rc' = SCIP_OKAY)) as [->|Hrc'].
    + exists tail. eexists. split_and!.
      * assert (exec_log
                  (if decide (SCIPbranchVarVal scip (sel_log st)
                                (default 0 (tmplpcands cands !! bestcand st))
                                (default 0%float
                                   (tmplpcandssol cands !! bestcand st))
                              = SCIP_OKAY)
                   then _ else _)
                = sel_log st
                    ++ [CallBranchVarVal
                          (default 0 (tmplpcands cands !! bestcand st))
                          (default 0%float
                             (tmplpcandssol cands !! bestcand st))]) as ->
          by (by destruct (decide _)).
        rewrite Hlog, <- app_assoc. reflexivity.
      * done.
      * right. by eexists.
    + exists tail, []. cbn. rewrite app_nil_r. split_and!; [done|done|].
      left. by split.
  - exists [], []. cbn. split_and!; [done|done|]. left. by split.
Qed.

(** X14: when the callback completes normally on a non-empty candidate
    list (the solution array as long as the candidate array), it has asked
    the host for exactly one branch, as its last call, on a variable of the
    candidate list paired with that candidate's own LP solution value. *)
Theorem X14_branch_on_chosen_candidate scip log d cands :
  SCIPgetLPBranchCands scip log = (SCIP_OKAY, cands) ->
  tmplpcands cands <> [] ->
  length (tmplpcandssol cands) = length (tmplpcands cands) ->
  exec_retcode (branchExeclpFullstrong scip log d) = SCIP_OKAY ->
  exists k var val tail,
    tmplpcands cands !! k = Some var
    /\ tmplpcandssol cands !! k = Some val
    /\ exec_log (branchExeclpFullstrong scip log d)
       = log ++ CallGetLPBranchCands :: tail ++ [CallBranchVarVal var val]
    /\ existsb is_branch_call tail = false.
Proof.
  intros Hcands Hne Hsol Hok.
  destruct (exec_log_shape scip log d)
    as (tail & branch & Hlog & Hs & [[_ Hbad]|(k & Hk & ->)]); [done|].
  cbn zeta in Hk. rewrite Hcands in Hk. cbn [snd] in Hk.
  assert (k < length (tmplpcands cands)) as Hlt
    by (rewrite Hk; by apply select_bestcand_bound).
  destruct (lookup_lt_is_Some_2 (tmplpcands cands) k Hlt) as [var Hvar].
  destruct (lookup_lt_is_Some_2 (tmplpcandssol cands) k ltac:(lia))
    as [val Hval].
  exists k, var, val, tail. rewrite Hcands in Hlog. cbn [snd] in Hlog.
  rewrite Hvar, Hval in Hlog. split_and!; try done.
  by apply selection_call_not_branch.
Qed.

Lemma X14_branch_on_chosen_candidate_witness :
  SCIPgetLPBranchCands host_S2 [] = (SCIP_OKAY, three_cands)
  /\ exec_retcode (scenario_exec host_S2) = SCIP_OKAY
  /\ exists k var val tail,
       tmplpcands three_cands !! k = Some var
       /\ tmplpcandssol three_cands !! k = Some val
       /\ exec_log (scenario_exec host_S2)
          = [] ++ CallGetLPBranchCands :: tail ++ [CallBranchVarVal var val]
       /\ existsb is_branch_call tail = false.
Proof.
  split; [reflexivity|]. split; [reflexivity|].
  exact (X14_branch_on_chosen_candidate host_S2 []
           SCIPincludeBranchruleFullstrongVanilla three_cands
           eq_refl ltac:(discriminate) eq_refl eq_refl).
Defined.

(** X15: on every path the callback first asks for the candidates, then
    makes only calls of the selection (start of strong branching without
    propagation, probes and oracle calls with the iteration limit
    [INT_MAX], end of strong branching), and requests a branch at most
    once, as its last call.  Without a branch request the callback returns
    an error code: no branch is requested after a failed candidate query, a
    refused memory request or a failed selection. *)
Theorem X15_at_most_one_branch_request scip log d :
  exists tail branch,
    exec_log (branchExeclpFullstrong scip log d)
    = log ++ CallGetLPBranchCands :: tail ++ branch
    /\ forallb selection_call tail = true
    /\ existsb is_branch_call tail = false
    /\ ((branch = []
         /\ exec_retcode (branchExeclpFullstrong scip log d) <> SCIP_OKAY)
        \/ exists var val, branch = [CallBranchVarVal var val]).
Proof.
  destruct (exec_log_shape scip log d)
    as (tail & branch & Hlog & Hs & Hbranch).
  exists tail, branch.
  split_and!; [done|done|by apply selection_call_not_branch|].
  destruct Hbranch as [?|(k & _ & ->)]; [by left|right; by eauto].
Qed.

(** ** X16: an execution does not depend on earlier score buffers *)

(** X16: when the host supplies candidates and grants the memory the
    callback asks for, the outcome of the callback (return code, result, rule data,
    log) depends on the rule data it starts from only through the parameter
    [forcestrongbranch]: the score buffers and the size left by an earlier
    execution have no influence, and no earlier score survives. *)
Theorem X16_execution_ignores_old_buffers scip log d1 d2 :
  (SCIPgetLPBranchCands scip log).1 = SCIP_OKAY ->
  memory_granted scip log
    (length (tmplpcands (SCIPgetLPBranchCands scip log).2)) ->
  forcestrongbranch d1 = forcestrongbranch d2 ->
  branchExeclpFullstrong scip log d1 = branchExeclpFullstrong scip log d2.
Proof.
  intros Hrc Halloc Hforce. unfold branchExeclpFullstrong.
  destruct (SCIPgetLPBranchCands scip log) as [rc cands].
  cbn [fst snd] in Hrc, Halloc. subst rc. destruct Halloc as [Hdup Halloc].
  rewrite decide_True by done. cbn zeta.
  rewrite !(decide_True _ _ Hdup).
  rewrite !(reset_score_buffers_granted _ _ _ _ Halloc).
  by rewrite Hforce.
Qed.

Lemma X16_execution_ignores_old_buffers_witness :
  exec_data (scenario_exec host_S4)
  = {| forcestrongbranch := true; scoresize := 2;
       latestscores := Some [50; 5]%float;
       validscores := Some [true; false] |}
  /\ memory_granted host_S2 [] 3
  /\ branchExeclpFullstrong host_S2 [] (exec_data (scenario_exec host_S4))
     = scenario_exec host_S2.
Proof.
  split; [vm_compute; reflexivity|].
  assert (memory_granted host_S2 [] 3) as Halloc by (by split).
  split; [exact Halloc|].
  exact (X16_execution_ignores_old_buffers host_S2 []
           (exec_data (scenario_exec host_S4))
           SCIPincludeBranchruleFullstrongVanilla eq_refl Halloc eq_refl).
Defined.

(** ** X17: the callback when the selection does not enter its loop *)

(** X17: if the host supplies [n] candidates and grants the memory the
    callback asks for, and the selection returns before its loop with [SCIP_OKAY] (one candidate without forced strong
    branching, or the solver stopped), the callback probes nothing and
    requests the branch on candidate 0; afterwards both buffers have [n]
    entries, all 0 in [latestscores] and all [FALSE] in [validscores]. *)
Theorem X17_callback_without_strong_branching scip log d cands :
  SCIPgetLPBranchCands scip log = (SCIP_OKAY, cands) ->
  memory_granted scip log (length (tmplpcands cands)) ->
  (negb (forcestrongbranch d) && (length (tmplpcands cands) =? 1))
  || SCIPisStopped scip (log ++ [CallGetLPBranchCands]) = true ->
  let out := branchExeclpFullstrong scip log d in
  latestscores (exec_data out)
  = Some (replicate (length (tmplpcands cands)) 0%float)
  /\ validscores (exec_data out)
     = Some (replicate (length (tmplpcands cands)) false)
  /\ exec_log out
     = log ++ [CallGetLPBranchCands;
               CallBranchVarVal (default 0 (tmplpcands cands !! 0))
                 (default 0%float (tmplpcandssol cands !! 0))]
  /\ exec_retcode out
     = SCIPbranchVarVal scip (log ++ [CallGetLPBranchCands])
         (default 0 (tmplpcands cands !! 0))
         (default 0%float (tmplpcandssol cands !! 0)).
Proof.
  intros Hcands [Hdup Halloc] Hskip. unfold branchExeclpFullstrong.
  rewrite Hcands. rewrite decide_True by done. cbn zeta.
  rewrite Hdup, (reset_score_buffers_granted _ _ _ _ Halloc).
  rewrite !decide_True by done. cbn [forcestrongbranch].
  unfold SCIPselectVarStrongBranchingVanilla. rewrite Hskip.
  rewrite decide_True by done.
  cbn [latestscores validscores buffer_of select_init
       bestcand sel_log sel_latestscores sel_validscores write_back].
  destruct (decide (SCIPbranchVarVal _ _ _ _ = SCIP_OKAY)) as [E|E];
    cbn; rewrite <- app_assoc; by split_and!.
Qed.

Lemma X17_callback_without_strong_branching_witness :
  SCIPgetLPBranchCands host_stopped [] = (SCIP_OKAY, two_cands)
  /\ memory_granted host_stopped [] 2
  /\ SCIPisStopped host_stopped [CallGetLPBranchCands] = true
  /\ latestscores (exec_data (scenario_exec host_stopped))
     = Some [0; 0]%float
  /\ exec_log (scenario_exec host_stopped)
     = [CallGetLPBranchCands; CallBranchVarVal 1 0.5%float].
Proof.
  split; [reflexivity|].
  assert (memory_granted host_stopped [] 2) as Halloc by (by split).
  split; [exact Halloc|]. split; [reflexivity|].
  pose proof (X17_callback_without_strong_branching host_stopped []
                SCIPincludeBranchruleFullstrongVanilla two_cands
                eq_refl Halloc eq_refl) as H.
  cbn zeta in H. destruct H as (Hl & _ & Hlog & _).
  split; [exact Hl|exact Hlog].
Defined.

(** ** X18: the loop starts from emptied buffers *)

Lemma empty_score_buffer_full scip n ls vs :
  length ls = n -> length vs = n ->
  empty_score_buffer scip n 0 ls vs
  = (replicate n (- SCIPinfinity scip)%float, replicate n false).
Proof.
  intros Hls Hvs.
  destruct (empty_score_buffer scip n 0 ls vs) as [ls' vs'] eqn:Hfill.
  apply empty_score_buffer_spec in Hfill as ([Hl Hv] & _ & Hfill).
  f_equal; apply list_eq; intros i;
    destruct (decide (i < n)) as [Hi|Hi].
  - rewrite lookup_replicate_2 by done. apply Hfill; lia.
  - rewrite !lookup_ge_None_2; [done|rewrite length_replicate|]; lia.
  - rewrite lookup_replicate_2 by done. apply Hfill; lia.
  - rewrite !lookup_ge_None_2; [done|rewrite length_replicate|]; lia.
Qed.

(** X18: a selection that gets past the early return of line 252 does not
    depend on what the two buffers (of length [nlpcands]) held before: both
    are overwritten entirely, with [-SCIPinfinity] and [FALSE], before the
    first probe. *)
Theorem X18_selection_overwrites_buffers
    scip log lpcands sol frac nprio force ls vs ls' vs' :
  (negb force && (length lpcands =? 1)) || SCIPisStopped scip log = false ->
  SCIPstartStrongbranch scip log false = SCIP_OKAY ->
  length ls = length lpcands -> length vs = length lpcands ->
  length ls' = length lpcands -> length vs' = length lpcands ->
  SCIPselectVarStrongBranchingVanilla scip log lpcands sol frac nprio force
    ls vs
  = SCIPselectVarStrongBranchingVanilla scip log lpcands sol frac nprio force
      ls' vs'.
Proof.
  intros Hgo Hstart Hls Hvs Hls' Hvs'.
  rewrite !(select_enters _ _ _ _ _ _ _ _ _ (conj Hgo Hstart)).
  unfold loop_entry.
  by rewrite !empty_score_buffer_full.
Qed.

Lemma X18_selection_overwrites_buffers_witness :
  SCIPselectVarStrongBranchingVanilla host_S2 [] [1; 2; 3]
    [0.5; 1.5; 2.5]%float [0.5; 0.5; 0.5]%float 3 true
    [7; 8; 9]%float [true; true; true]
  = scenario_select host_S2 true.
Proof.
  exact (X18_selection_overwrites_buffers host_S2 [] [1; 2; 3]
           [0.5; 1.5; 2.5]%float [0.5; 0.5; 0.5]%float 3 true
           [7; 8; 9]%float [true; true; true]
           [0; 0; 0]%float [false; false; false]
           eq_refl eq_refl eq_refl eq_refl eq_refl eq_refl).
Defined.

(** ** X19: among equal scores the first candidate wins *)

Lemma SFltb_leb_trans f1 f2 f3 :
  SFltb f1 f2 = true -> SFleb f2 f3 = true -> SFltb f1 f3 = true.
Proof.
  unfold SFltb, SFleb, SFcompare.
  destruct f1 as [s1|s1| |s1 m1 e1], f2 as [s2|s2| |s2 m2 e2],
    f3 as [s3|s3| |s3 m3 e3];
    try destruct s1; try destruct s2; try destruct s3;
    cbn; try discriminate; try reflexivity;
    unfold Pos.compare; intros H12 H23;
    fold (Pos.compare m1 m2) in *; fold (Pos.compare m2 m3) in *;
    fold (Pos.compare m1 m3) in *;
    sf_compare_cases; cbn in *; try discriminate; try reflexivity; try lia.
Qed.

Lemma ltb_leb_trans (x y z : SCIP_Real) :
  (x <? y)%float = true -> (y <=? z)%float = true -> (x <? z)%float = true.
Proof. rewrite !ltb_spec, leb_spec. apply SFltb_leb_trans. Qed.

(** The relation kept between the state and the candidate of index [k]
    with verdict [v]. *)
Lemma candidate_loop_verdicts_at scip force lpobjval
    (I : nat -> SelectState -> Prop)
    (R : SelectState -> nat -> Verdict -> Prop) :
  (forall c var st flow st',
      I c st ->
      iteration scip force lpobjval c var st = (flow, st') -> I (S c) st') ->
  (forall c var st flow st' v,
      I c st ->
      probe_verdict scip lpobjval st var = Some v ->
      iteration scip force lpobjval c var st = (flow, st') -> R st' c v) ->
  (forall c var st flow st' k v0,
      k < c -> I c st -> R st k v0 ->
      iteration scip force lpobjval c var st = (flow, st') -> R st' k v0) ->
  forall l c st flow st',
    I c st ->
    candidate_loop scip force lpobjval l c st = (flow, st') ->
    (forall k v0, k < c -> R st k v0 -> R st' k v0)
    /\ forall j stj varj vj,
         l !! j = Some varj ->
         candidate_loop scip force lpobjval (take j l) c st = (Continue, stj) ->
         probe_verdict scip lpobjval stj varj = Some vj ->
         R st' (c + j) vj.
Proof.
  intros HI Hnew Hold l. induction l as [|var l IH]; intros c st flow st' Hinv.
  - intros [= <- <-]. split; [done|]. intros j ? ? ? Hj. discriminate Hj.
  - cbn [candidate_loop].
    destruct (iteration scip force lpobjval c var st) as [f st1] eqn:Hit.
    pose proof (HI _ _ _ _ _ Hinv Hit) as Hinv1.
    intros Hrest.
    assert ((forall k v0, k < S c -> R st1 k v0 -> R st' k v0)
            /\ forall j stj varj vj,
                 l !! j = Some varj ->
                 f = Continue ->
                 candidate_loop scip force lpobjval (take j l) (S c) st1
                 = (Continue, stj) ->
                 probe_verdict scip lpobjval stj varj = Some vj ->
                 R st' (S c + j) vj) as [Hkeep Hlater].
    { destruct f.
      - destruct (IH _ _ _ _ Hinv1 Hrest) as [H1 H2]. split; [done|].
        intros; by eapply H2.
      - injection Hrest as <- <-. by split.
      - injection Hrest as <- <-. by split. }
    split.
    + intros k v0 Hk H0. apply Hkeep; [lia|]. by eapply Hold.
    + intros [|j] stj varj vj Hj Hrun Hvj.
      * cbn in Hj, Hrun. injection Hj as <-. injection Hrun as <-.
        rewrite Nat.add_0_r. apply Hkeep; [lia|]. by eapply Hnew.
      * cbn [take candidate_loop] in Hrun. rewrite Hit in Hrun.
        destruct f; [|discriminate..].
        replace (c + S j) with (S c + j) by lia. by eapply Hlater.
Qed.

Lemma first_wins_step scip force lpobjval c var st flow st' :
  bestcand st = 0 \/ bestcand st < c ->
  iteration scip force lpobjval c var st = (flow, st') ->
  (forall v,
      probe_verdict scip lpobjval st var = Some v ->
      ((infeasible_side v = true -> besthasinf st' = true)
       /\ (infeasible_side v = besthasinf st' ->
           (bestscore st' <? v_score v)%float = false))
      /\ (c < bestcand st' -> infeasible_side v = besthasinf st' ->
          (bestscore st' <=? v_score v)%float = false))
  /\ (forall k v0,
        k < c ->
        ((infeasible_side v0 = true -> besthasinf st = true)
         /\ (infeasible_side v0 = besthasinf st ->
             (bestscore st <? v_score v0)%float = false))
        /\ (k < bestcand st -> infeasible_side v0 = besthasinf st ->
            (bestscore st <=? v_score v0)%float = false) ->
        ((infeasible_side v0 = true -> besthasinf st' = true)
         /\ (infeasible_side v0 = besthasinf st' ->
             (bestscore st' <? v_score v0)%float = false))
        /\ (k < bestcand st' -> infeasible_side v0 = besthasinf st' ->
            (bestscore st' <=? v_score v0)%float = false)).
Proof.
  intros Hbound Hit.
  destruct (best_dominates_step _ _ _ _ _ _ _ _ Hit) as [Hnew Hold].
  pose proof (iteration_bestcand _ _ _ _ _ _ _ _ Hit) as Hbc.
  split.
  - intros v Hv. split; [by apply Hnew|]. intros Hlt. lia.
  - intros k v0 Hk [H12 Hfirst]. split; [by apply Hold|].
    intros Hlt Hclass.
    apply iteration_cases in Hit
      as [(_ & _ & ->)|(v & Hv & [(_ & _ & ->)|(Hyes & _ & ->)])].
    + destruct (probed_best scip st var) as (E1 & E2 & _ & _ & _ & _ & E3).
      rewrite E1 in Hlt. rewrite E3 in Hclass. rewrite E2. by apply Hfirst.
    + destruct (scored_best scip c var v st) as (E1 & E2 & E3 & _).
      rewrite E1 in Hlt. rewrite E3 in Hclass. rewrite E2. by apply Hfirst.
    + destruct (scored_best scip c var v st) as (_ & Hs & Hb & _).
      unfold replaces_best in Hyes. rewrite Hs, Hb in Hyes.
      cbn [new_best besthasinf bestscore] in *. rewrite Hb in Hclass.
      destruct H12 as [H1 H2]. unfold infeasible_side in *.
      destruct (v_score v <=? v_score v0)%float eqn:Hle; [|done].
      destruct (v_downinf v || v_upinf v) eqn:Hside,
        (besthasinf st) eqn:Hinf;
        cbn in Hyes;
        rewrite ?andb_true_r, ?andb_false_r, ?orb_false_r, ?orb_true_r
          in Hyes; try done.
      * rewrite <- (H2 Hclass). symmetry. by eapply ltb_leb_trans.
      * by specialize (H1 Hclass).
      * rewrite <- (H2 Hclass). symmetry. by eapply ltb_leb_trans.
Qed.

(** X19: on return, a candidate the loop got to before [bestcand] and of
    the same class as the best (with an infeasible side if the best has an
    infeasibility, regular otherwise) does not score as high as the best:
    [bestscore <= score] is false.  With X12, [bestcand] is the first
    candidate of its class that reaches the maximal score. *)
Theorem X19_first_of_equal_scores_wins
    scip log lpcands sol frac nprio force ls vs k var stk v :
  enters_loop scip log lpcands force ->
  lpcands !! k = Some var ->
  reaches scip force (SCIPgetLPObjval scip log) lpcands
    (loop_entry scip log (length lpcands) ls vs) k stk ->
  probe_verdict scip (SCIPgetLPObjval scip log) stk var = Some v ->
  let out :=
    SCIPselectVarStrongBranchingVanilla scip log lpcands sol frac nprio
      force ls vs in
  k < bestcand out.2 ->
  infeasible_side v = besthasinf out.2 ->
  (bestscore out.2 <=? v_score v)%float = false.
Proof.
  intros Henter Hk Hreach Hv. cbn zeta.
  rewrite (select_enters _ _ _ _ _ _ _ _ _ Henter).
  destruct (candidate_loop _ _ _ _ _ _) as [flow st] eqn:Hloop.
  destruct (finish_state scip flow st) as (-> & -> & -> & _).
  apply (candidate_loop_verdicts_at scip force (SCIPgetLPObjval scip log)
           (fun c st => bestcand st = 0 \/ bestcand st < c)
           (fun st k v =>
              ((infeasible_side v = true -> besthasinf st = true)
               /\ (infeasible_side v = besthasinf st ->
                   (bestscore st <? v_score v)%float = false))
              /\ (k < bestcand st -> infeasible_side v = besthasinf st ->
                  (bestscore st <=? v_score v)%float = false))) in Hloop
    as [_ Hall].
  - by apply (proj2 (Hall k stk var v Hk Hreach Hv)).
  - intros c var0 st0 f st1 Hinv Hit.
    destruct (iteration_bestcand _ _ _ _ _ _ _ _ Hit) as [-> | ->]; lia.
  - intros c var0 st0 f st1 v0 Hinv Hv0 Hit.
    by apply (proj1 (first_wins_step _ _ _ _ _ _ _ _ Hinv Hit)).
  - intros c var0 st0 f st1 k0 v0 Hk0 Hinv H0 Hit.
    by apply (proj2 (first_wins_step _ _ _ _ _ _ _ _ Hinv Hit) k0).
  - left. by destruct (loop_entry_spec scip log (length lpcands) ls vs).
Qed.

Lemma X19_first_of_equal_scores_wins_witness :
  enters_loop host_S2 [] [1; 2; 3] true
  /\ reaches host_S2 true 10%float [1; 2; 3] (scenario_entry host_S2) 1
       (scenario_after_first host_S2 true)
  /\ bestcand (scenario_select host_S2 true).2 = 2
  /\ (bestscore (scenario_select host_S2 true).2 <=? 2)%float = false.
Proof.
  assert (enters_loop host_S2 [] [1; 2; 3] true) as H1 by (by split).
  assert (reaches host_S2 true 10%float [1; 2; 3] (scenario_entry host_S2) 1
            (scenario_after_first host_S2 true)) as H2
    by (vm_compute; reflexivity).
  split; [exact H1|]. split; [exact H2|]. split; [reflexivity|].
  destruct (probe_verdict host_S2 10%float
              (scenario_after_first host_S2 true) 2) as [v|] eqn:Hv;
    [|vm_compute in Hv; discriminate Hv].
  pose proof (X19_first_of_equal_scores_wins host_S2 [] [1; 2; 3]
                [0.5; 1.5; 2.5]%float [0.5; 0.5; 0.5]%float 3 true
                [0; 0; 0]%float [false; false; false] 1 2
                (scenario_after_first host_S2 true) v H1 eq_refl H2 Hv) as H.
  cbn zeta in H. vm_compute in Hv. injection Hv as <-.
  exact (H ltac:(vm_compute; lia) eq_refl).
Defined.
